(** * Matching engine of the connector: semantic expansion, need/capability
    extraction, scoring and orchestration (src/connector/semantic_expansion.py
    and src/connector/matcher.py).

    Modelling conventions.
    - Python [str] is [String.string]; the texts are taken to be ASCII, so
      [str.lower] lowers A-Z only and the regex class [\w] is [A-Za-z0-9_].
    - Every regular expression of the two files is an alternation of
      literals, each optionally anchored by [\b] on either side; [re.search]
      over such a pattern is [re_search] below.
    - Python [set] is stdpp's [gset string], a [dict] of lists is
      [gmap string (list string)].
    - Scores are read in exact decimal arithmetic: the weighted blend is kept
      in hundredths, confidences are kept in hundredths.  On every reachable
      combination of component scores and confidences the IEEE evaluation
      and the exact one give the same rounded score and the same tier.
      The mean [round(sum(scores) / len(scores))] is the exact quotient
      rounded half to even.
    - A Python exception (only [IndexError] can occur, on an empty list)
      is [None]. *)

From Stdlib Require Import String Ascii ZArith Lia Bool.
From Stdlib Require Import Sorted Permutation.
From stdpp Require Import base gmap sets list strings pretty.

Open Scope string_scope.

(* ------------------------------------------------------------------ *)
(** ** Characters and strings *)

Definition ascii_code (c : ascii) : nat := nat_of_ascii c.

(** [str.lower] on ASCII. *)
Definition lower_char (c : ascii) : ascii :=
  let n := ascii_code c in
  if (65 <=? n)%nat && (n <=? 90)%nat then ascii_of_nat (n + 32) else c.

Fixpoint lower (s : string) : string :=
  match s with
  | EmptyString => EmptyString
  | String c s' => String (lower_char c) (lower s')
  end.

(** The regex class [\w]. *)
Definition is_word_char (c : ascii) : bool :=
  let n := ascii_code c in
  ((48 <=? n)%nat && (n <=? 57)%nat) || ((65 <=? n)%nat && (n <=? 90)%nat)
  || ((97 <=? n)%nat && (n <=? 122)%nat) || (n =? 95)%nat.

(** The regex class [\s] and [str.isspace] on ASCII. *)
Definition is_space_char (c : ascii) : bool :=
  let n := ascii_code c in
  ((9 <=? n)%nat && (n <=? 13)%nat) || ((28 <=? n)%nat && (n <=? 32)%nat).

Definition word_opt (c : option ascii) : bool :=
  match c with Some c => is_word_char c | None => false end.

(** [\b] between the character before and the character after a position. *)
Definition boundary (prev next : option ascii) : bool :=
  xorb (word_opt prev) (word_opt next).

Definition head_char (s : string) : option ascii :=
  match s with EmptyString => None | String c _ => Some c end.

Fixpoint last_char (prev : option ascii) (s : string) : option ascii :=
  match s with EmptyString => prev | String c s' => last_char (Some c) s' end.

(* ------------------------------------------------------------------ *)
(** ** Regular expressions: alternations of literals with optional [\b] *)

Record alt := Alt { alt_lb : bool; alt_lit : string; alt_rb : bool }.
Definition pat := list alt.

(** [plain ["a"; "b"]] is the pattern [a|b]. *)
Definition plain (ws : list string) : pat := map (fun w => Alt false w false) ws.
(** [words ["a"; "b"]] is the pattern [\b(a|b)\b]. *)
Definition words (ws : list string) : pat := map (fun w => Alt true w true) ws.

(** One alternative matches at the current position, [prev] being the
    character before it. *)
Definition alt_here (prev : option ascii) (s : string) (a : alt) : bool :=
  (negb (alt_lb a) || boundary prev (head_char s))
  && String.prefix (alt_lit a) s
  && (negb (alt_rb a)
      || boundary (last_char prev (alt_lit a))
                  (head_char (substring (String.length (alt_lit a)) (String.length s) s))).

Fixpoint search_from (p : pat) (prev : option ascii) (s : string) : bool :=
  existsb (alt_here prev s) p
  || match s with
     | EmptyString => false
     | String c s' => search_from p (Some c) s'
     end.

(** [bool(re.search(p, s))]. *)
Definition re_search (p : pat) (s : string) : bool := search_from p None s.

(** [re.search(p, s, re.IGNORECASE)] for a lower-case pattern. *)
Definition re_search_i (p : pat) (s : string) : bool := re_search p (lower s).

(** Python's [x in s] for strings. *)
Definition str_in (x s : string) : bool := re_search (plain [x]) s.

(** [str.split()] with no argument. *)
Fixpoint split_ws_aux (cur : string) (s : string) : list string :=
  match s with
  | EmptyString => if String.eqb cur EmptyString then [] else [cur]
  | String c s' =>
      if is_space_char c
      then (if String.eqb cur EmptyString then [] else [cur]) ++ split_ws_aux EmptyString s'
      else split_ws_aux (cur ++ String c EmptyString) s'
  end.

Definition split_ws (s : string) : list string := split_ws_aux EmptyString s.

(* ------------------------------------------------------------------ *)
(** ** semantic_expansion.py *)

Module Semantic.

Definition SEMANTIC_MATCHING_ENABLED : bool := true.

Definition dict_get {V} (d : list (string * V)) (k : string) : option V :=
  match List.find (fun kv => String.eqb (fst kv) k) d with
  | Some (_, v) => Some v
  | None => None
  end.

Definition SUPPLY_CAPABILITY_EXPANSIONS : list (string * list string) := [
  ("recruiting", ["hiring"; "talent acquisition"; "staffing"; "headhunting";
                  "recruiter"; "placement"; "sourcing"; "talent"; "hire";
                  "engineer"; "engineers"; "engineering"; "developer"; "software";
                  "sales"; "marketing"]);
  ("recruit", ["hiring"; "talent"; "staffing"; "hire"]);
  ("staffing", ["recruiting"; "hiring"; "talent"; "hire"]);
  ("talent", ["recruiting"; "hiring"; "staffing"; "hire"]);
  ("engineering_recruiting", ["technical hiring"; "hire engineers"; "engineering hires";
                              "tech hiring"; "developer hiring"; "engineer"; "software"]);
  ("sales_recruiting", ["sales hiring"; "hire salespeople"; "sales hires"; "revenue hiring"]);
  ("marketing_recruiting", ["marketing hiring"; "hire marketers"; "marketing hires"]);
  ("executive_recruiting", ["executive hiring"; "leadership hiring"; "c-suite hiring";
                            "executive search"])].

Definition DEMAND_NEED_EXPANSIONS : list (string * list string) := [
  ("hiring", ["recruiting"; "talent acquisition"; "staffing"; "team building";
              "headcount"; "recruit"; "recruiter"]);
  ("engineer", ["recruiting"; "staffing"; "talent"; "hire"; "hiring"; "technical hiring"]);
  ("engineers", ["recruiting"; "staffing"; "talent"; "hire"; "hiring"]);
  ("engineering", ["recruiting"; "staffing"; "talent"; "hire"; "hiring";
                   "engineering hires"; "hire engineers"; "technical hiring";
                   "developer"; "software engineer"; "tech talent"]);
  ("software", ["recruiting"; "staffing"; "talent"; "hire"; "engineering"]);
  ("developer", ["recruiting"; "staffing"; "talent"; "hire"; "engineering"]);
  ("sales", ["recruiting"; "staffing"; "talent"; "hire"; "hiring";
             "sales hires"; "hire salespeople"; "sales talent"; "revenue team"]);
  ("marketing", ["recruiting"; "staffing"; "talent"; "hire"; "hiring";
                 "marketing hires"; "hire marketers"; "marketing talent"]);
  ("operations", ["recruiting"; "staffing"; "talent"; "hire";
                  "operations hires"; "hire ops"; "ops talent"]);
  ("finance", ["recruiting"; "staffing"; "talent"; "hire";
               "finance hires"; "hire finance"; "accounting talent"])].

Inductive side := Demand | Supply.

Record SemanticContext := { ctx_side : side; ctx_text : string }.

Inductive resolution := Need | Capability.

Definition hiring_context_re : pat :=
  words ["hire"; "hiring"; "team"; "headcount"; "recruit"; "talent"; "staffing"; "placement"].
Definition recruiting_context_re : pat :=
  words ["recruit"; "recruiting"; "staffing"; "talent"; "headhunt"; "placement"; "sourcing"].

Definition is_demand (s : side) : bool := match s with Demand => true | Supply => false end.
Definition is_supply (s : side) : bool := match s with Supply => true | Demand => false end.

Definition resolve_ambiguous_term (term : string) (ctx : SemanticContext)
  : option resolution :=
  let lower_term := lower term in
  let lower_text := lower (ctx_text ctx) in
  let has_hiring_context := re_search hiring_context_re lower_text in
  let has_recruiting_context := re_search recruiting_context_re lower_text in
  if existsb (String.eqb lower_term) ["engineering"; "engineer"; "engineers"] then
    if is_demand (ctx_side ctx) && has_hiring_context then Some Need
    else if is_supply (ctx_side ctx) && has_recruiting_context then Some Capability
    else None
  else if String.eqb lower_term "sales" then
    if is_demand (ctx_side ctx) && has_hiring_context then Some Need
    else if is_supply (ctx_side ctx) && has_recruiting_context then Some Capability
    else None
  else if String.eqb lower_term "marketing" then
    if is_demand (ctx_side ctx) && has_hiring_context then Some Need
    else if is_supply (ctx_side ctx) && has_recruiting_context then Some Capability
    else None
  else if String.eqb lower_term "growth" then
    if has_hiring_context then
      Some (if is_demand (ctx_side ctx) then Need else Capability)
    else None
  else None.

Record SemanticExpansionResult := {
  base : gset string;
  expanded : gset string;
  reasons : gmap string (list string) }.

(** [expanded.add(e)] together with
    [reasons.setdefault(e, []).append(r)]. *)
Definition add_with_reason (r : string) (st : gset string * gmap string (list string))
    (e : string) : gset string * gmap string (list string) :=
  let (ex, rs) := st in
  ({[e]} ∪ ex, <[e := app (default [] (rs !! e)) [r]]> rs).

(** The same, guarded by [if exp_lower not in expanded]. *)
Definition add_if_new (r : string) (st : gset string * gmap string (list string))
    (e : string) : gset string * gmap string (list string) :=
  if decide (e ∈ st.1) then st else add_with_reason r st e.

Definition list_lookup_or_nil (d : list (string * list string)) (k : string) :=
  default [] (dict_get d k).

(** The body of [for token in tokens]. *)
Definition expand_token (ctx : SemanticContext)
    (expansion_map : list (string * list string))
    (st : gset string * gmap string (list string)) (token : string)
    : gset string * gmap string (list string) :=
  let lower_token := lower token in
  let st1 :=
    match dict_get expansion_map lower_token with
    | Some exps => fold_left (fun st e => add_with_reason ("taxonomy:" ++ lower_token)
                                              st (lower e)) exps st
    | None => st
    end in
  match resolve_ambiguous_term lower_token ctx with
  | Some res =>
      let st2 :=
        match res, ctx_side ctx with
        | Need, Demand =>
            fold_left (fun st e => add_with_reason
                                     ("ambiguity:" ++ lower_token ++ "→need") st (lower e))
                      (list_lookup_or_nil DEMAND_NEED_EXPANSIONS "hiring") st1
        | _, _ => st1
        end in
      match res, ctx_side ctx with
      | Capability, Supply =>
          fold_left (fun st e => add_with_reason
                                   ("ambiguity:" ++ lower_token ++ "→capability") st (lower e))
                    (list_lookup_or_nil SUPPLY_CAPABILITY_EXPANSIONS "recruiting") st2
      | _, _ => st2
      end
  | None => st1
  end.

Definition supply_text_re : pat :=
  words ["recruit"; "recruiting"; "staffing"; "talent"; "headhunt"; "placement"].
Definition demand_text_re : pat :=
  words ["hiring"; "hire"; "hires"; "team building"; "headcount"].

Definition expansion_map_for (ctx : SemanticContext) : list (string * list string) :=
  if is_demand (ctx_side ctx) then DEMAND_NEED_EXPANSIONS
  else SUPPLY_CAPABILITY_EXPANSIONS.

(** The [for token in tokens] loop, from [expanded = set(base)] and
    [reasons = {}]. *)
Definition token_loop (tokens : list string) (ctx : SemanticContext) (base0 : gset string)
  : gset string * gmap string (list string) :=
  fold_left (expand_token ctx (expansion_map_for ctx)) tokens (base0, ∅).

Definition expand_semantic_signals (tokens : list string) (ctx : SemanticContext)
  : SemanticExpansionResult :=
  let base0 : gset string := list_to_set (map lower tokens) in
  if negb SEMANTIC_MATCHING_ENABLED then
    {| base := base0; expanded := base0; reasons := ∅ |}
  else
  let lower_text := lower (ctx_text ctx) in
  let st1 := token_loop tokens ctx base0 in
  let st2 :=
    if is_supply (ctx_side ctx) && re_search supply_text_re lower_text then
      fold_left (fun st e => add_if_new "text:recruiting_detected" st (lower e))
                (list_lookup_or_nil SUPPLY_CAPABILITY_EXPANSIONS "recruiting") st1
    else st1 in
  let st3 :=
    if is_demand (ctx_side ctx) && re_search demand_text_re lower_text then
      fold_left (fun st e => add_if_new "text:hiring_detected" st (lower e))
                (list_lookup_or_nil DEMAND_NEED_EXPANSIONS "hiring") st2
    else st2 in
  {| base := base0; expanded := st3.1; reasons := st3.2 |}.

(** [re.sub(r'[^\w\s]', ' ', text.lower())]. *)
Definition strip_punct (s : string) : string :=
  string_of_list_ascii
    (map (fun c => if is_word_char c || is_space_char c then c else " "%char)
         (list_ascii_of_string (lower s))).

Definition extract_tokens (text : string) : list string :=
  if String.eqb text EmptyString then []
  else filter (fun t => (2 <? String.length t)%nat) (split_ws (strip_punct text)).

Record Overlap := { overlapCount : nat; matchedTokens : list string }.

(** [[t for t in demand_tokens if t in supply_tokens]]; the order of
    [matchedTokens] is the set's iteration order, which Python leaves
    unspecified; only its length is used downstream. *)
Definition compute_semantic_overlap (demand_tokens supply_tokens : gset string) : Overlap :=
  let matched := elements (filter (fun t => t ∈ supply_tokens) demand_tokens) in
  {| overlapCount := length matched; matchedTokens := matched |}.

Definition calculate_semantic_bonus (overlap_count : nat) : Z :=
  if (5 <=? overlap_count)%nat then 30
  else if (3 <=? overlap_count)%nat then 20
  else if (1 <=? overlap_count)%nat then 10
  else 0.

Record SemanticScore := { bonus : Z; s_overlapCount : nat; s_matchedTokens : list string }.

Definition get_semantic_score (demand_text supply_text : string) : SemanticScore :=
  let demand_tokens := extract_tokens demand_text in
  let supply_tokens := extract_tokens supply_text in
  let demand_result := expand_semantic_signals demand_tokens
                         {| ctx_side := Demand; ctx_text := demand_text |} in
  let supply_result := expand_semantic_signals supply_tokens
                         {| ctx_side := Supply; ctx_text := supply_text |} in
  let overlap := compute_semantic_overlap (expanded demand_result) (expanded supply_result) in
  {| bonus := calculate_semantic_bonus (overlapCount overlap);
     s_overlapCount := overlapCount overlap;
     s_matchedTokens := matchedTokens overlap |}.

End Semantic.

(* ------------------------------------------------------------------ *)
(** ** Records (the dataclasses of connector/models.py that the engine reads) *)

(** A field that holds a string or a list of strings ([industry], [size]). *)
Inductive field := FStr (s : string) | FList (l : list string).

(** Python truthiness of such a field. *)
Definition field_truthy (f : field) : bool :=
  match f with
  | FStr s => negb (String.eqb s EmptyString)
  | FList l => negb (bool_decide (l = []))
  end.

Definition hex_digit (n : nat) : ascii :=
  if (n <? 10)%nat then ascii_of_nat (48 + n) else ascii_of_nat (87 + n).

Definition backslash : ascii := ascii_of_nat 92.

(** A backslash followed by the given characters. *)
Definition escaped (cs : list ascii) : string :=
  String backslash (fold_right String EmptyString cs).

(** One character inside Python's [repr] of a [str], with quote [q]. *)
Definition repr_char (q : ascii) (c : ascii) : string :=
  let n := ascii_code c in
  if (n =? 92)%nat then escaped [backslash]
  else if (n =? 9)%nat then escaped ["t"%char]
  else if (n =? 10)%nat then escaped ["n"%char]
  else if (n =? 13)%nat then escaped ["r"%char]
  else if (n <? 32)%nat || (n =? 127)%nat
  then escaped ["x"%char; hex_digit (n / 16); hex_digit (n mod 16)]
  else if Ascii.eqb c q then escaped [c]
  else String c EmptyString.

Fixpoint repr_body (q : ascii) (s : string) : string :=
  match s with
  | EmptyString => EmptyString
  | String c s' => repr_char q c ++ repr_body q s'
  end.

(** Python's [repr] of a [str]: single quotes unless the text holds a
    single quote and no double quote. *)
Definition py_repr (s : string) : string :=
  let dq := ascii_of_nat 34 in
  let q := if str_in "'" s && negb (str_in (String dq EmptyString) s) then dq else "'"%char in
  String q (repr_body q s ++ String q EmptyString).

Fixpoint join_comma (l : list string) : string :=
  match l with
  | [] => EmptyString
  | [x] => x
  | x :: t => x ++ ", " ++ join_comma t
  end.

(** [to_string_safe] (and [str()] / f-string formatting) of a field. *)
Definition to_string_safe (f : field) : string :=
  match f with
  | FStr s => s
  | FList l => "[" ++ join_comma (map py_repr l) ++ "]"
  end.

Record SignalMeta := { kind : string; label : string }.

Record NormalizedRecord := {
  domain : string;
  company : string;
  full_name : string;
  title : string;
  industry : field;
  signal : string;
  signal_meta : option SignalMeta;
  company_description : string;
  company_funding : string;
  size : field;
  record_key : string }.

(** Confidences are kept in hundredths: [95] is [0.95]. *)
Record NeedProfile := {
  n_category : string; n_specifics : list string; n_confidence : Z; n_source : string }.

Record CapabilityProfile := {
  c_category : string; c_specifics : list string; c_confidence : Z; c_source : string }.

Inductive tier := Strong | Good | Open.

Record Match := {
  m_demand : NormalizedRecord;
  m_supply : NormalizedRecord;
  score : Z;
  m_reasons : list string;
  m_tier : tier;
  tier_reason : string;
  need_profile : NeedProfile;
  capability_profile : CapabilityProfile }.

(** [[t] if b else []], used to accumulate specifics. *)
Definition tag_if (b : bool) (t : string) : list string := if b then [t] else [].

(* ------------------------------------------------------------------ *)
(** ** Need and capability extraction (matcher.py) *)

Module Matcher.

Definition mkNeed c sp conf src : NeedProfile :=
  {| n_category := c; n_specifics := sp; n_confidence := conf; n_source := src |}.
Definition mkCap c sp conf src : CapabilityProfile :=
  {| c_category := c; c_specifics := sp; c_confidence := conf; c_source := src |}.

Definition is_hiring_data (demand : NormalizedRecord) : bool :=
  match signal_meta demand with
  | Some m => String.eqb (kind m) "HIRING_ROLE"
  | None => false
  end.

Definition extract_need_from_demand (demand : NormalizedRecord) : NeedProfile :=
  let signal := lower (signal demand) in
  let title := lower (title demand) in
  let description := lower (company_description demand) in
  let funding := lower (company_funding demand) in
  let industry := lower (to_string_safe (industry demand)) in
  let company := lower (company demand) in
  let has_funding := negb (String.eqb funding EmptyString) in
  if negb (is_hiring_data demand) then
    let industry_and_desc := industry ++ " " ++ company ++ " " ++ description in
    if re_search_i (plain ["biotech"; "pharma"; "therapeutic"; "clinical"; "life science";
                           "drug"; "medical device"; "biopharma"]) industry_and_desc
    then mkNeed "biotech" (tag_if has_funding "funded") 85 "industry"
    else if re_search_i (plain ["health"; "medical"; "hospital"; "patient"; "clinic"])
                        industry_and_desc
            && negb (re_search_i (plain ["biotech"; "pharma"]) industry_and_desc)
    then mkNeed "healthcare" [] 80 "industry"
    else if re_search_i ([Alt true "software" true; Alt false "saas" false;
                          Alt true "cloud" true] ++
                         plain ["platform"; "digital"; "ai company"; "tech company"])%list
                        industry_and_desc
            && negb (re_search_i (plain ["biotech"; "fintech"; "healthtech"]) industry_and_desc)
    then mkNeed "tech" [] 80 "industry"
    else if re_search_i (plain ["fintech"; "financial technology"]) industry_and_desc
    then mkNeed "fintech" [] 80 "industry"
    else if re_search_i (plain ["financ"; "banking"; "insurance"; "invest"; "capital"; "asset"])
                        industry_and_desc
            && negb (re_search_i (plain ["fintech"]) industry_and_desc)
    then mkNeed "finance_co" [] 75 "industry"
    else if has_funding
            || re_search_i (plain ["raised"; "funding"; "series"; "seed"; "round"]) description
    then mkNeed "growth" ["post-funding"; "scaling"] 70 "funding_signal"
    else mkNeed "company" [] 40 "industry"
  else
    let combined := signal ++ " " ++ title in
    if re_search_i (plain ["engineer"; "developer"] ++ [Alt true "software" true] ++
                    plain ["devops"; "backend"; "frontend"; "fullstack"] ++
                    [Alt false "ml" true; Alt false "ai" true] ++ plain ["data scientist"])%list
                   combined
       && negb (re_search_i (plain ["recruit"]) combined)
    then mkNeed "engineering"
           (concat [tag_if (re_search_i (plain ["senior"; "staff"; "lead"; "principal"]) combined)
                           "senior";
                    tag_if (re_search_i (plain ["ml"; "machine learning"] ++ [Alt false "ai" true])%list
                                        combined) "ML/AI";
                    tag_if (re_search_i (plain ["backend"; "server"]) combined) "backend";
                    tag_if (re_search_i (plain ["frontend"; "react"; "ui"]) combined) "frontend"])
           90 "job_signal"
    else if re_search_i ([Alt true "sales" true] ++ plain ["account executive"] ++
                         words ["ae"] ++ words ["sdr"] ++ words ["bdr"] ++
                         plain ["revenue"; "business development"; "closer"])%list combined
    then mkNeed "sales"
           (concat [tag_if (re_search_i (plain ["vp"; "head"; "director"]) combined) "leadership";
                    tag_if (re_search_i (plain ["enterprise"]) combined) "enterprise"])
           90 "job_signal"
    else if re_search_i (plain ["marketing"; "growth"; "brand"; "content"] ++ words ["seo"] ++
                         plain ["paid"; "demand gen"; "gtm"])%list combined
    then mkNeed "marketing"
           (concat [tag_if (re_search_i (plain ["head"; "vp"; "director"]) combined) "leadership";
                    tag_if (re_search_i (plain ["content"]) combined) "content"])
           90 "job_signal"
    else if re_search_i (words ["finance"; "cfo"] ++
                         plain ["accounting"; "controller"; "fp&a"; "bookkeep"])%list combined
    then mkNeed "finance" [] 90 "job_signal"
    else if re_search_i (plain ["operations"] ++ words ["ops"; "coo"] ++
                         plain ["chief operating"; "supply chain"; "logistics"])%list combined
    then mkNeed "operations" [] 90 "job_signal"
    else if re_search_i (plain ["recruiter"; "talent"] ++ words ["hr"] ++
                         plain ["human resources"; "people ops"])%list combined
    then mkNeed "recruiting" [] 90 "job_signal"
    else if has_funding
            || re_search_i (plain ["raised"; "funding"; "series"; "seed"; "round"])
                           (combined ++ " " ++ description)
    then mkNeed "growth" ["post-funding"; "scaling"] 70 "funding_signal"
    else mkNeed "general" [] 30 "none".

(** [industry_raw[0] if isinstance(industry_raw, list) else industry_raw];
    [None] is the [IndexError] of an empty list. *)
Definition first_or_scalar (f : field) : option string :=
  match f with
  | FStr s => Some s
  | FList (x :: _) => Some x
  | FList [] => None
  end.

Definition recruiting_provider_re : pat :=
  plain ["recruit"; "staffing"; "talent acquisition"; "headhunt"; "placement";
         "hiring agency"; "staffing agency"].

Definition extract_capability_from_supply (supply : NormalizedRecord)
  : option CapabilityProfile :=
  let description := lower (company_description supply) in
  let title := lower (title supply) in
  let company := lower (company supply) in
  match first_or_scalar (industry supply) with
  | None => None
  | Some industry_raw =>
  let industry := lower industry_raw in
  let combined := description ++ " " ++ title ++ " " ++ company ++ " " ++ industry in
  Some (
  if re_search_i recruiting_provider_re combined then
    let specifics :=
      concat [tag_if (re_search_i (plain ["engineer"] ++ words ["software"])%list combined) "tech";
              tag_if (re_search_i (plain ["executive"; "c-suite"; "leadership"]) combined)
                     "executive"] in
    let confidence := if str_in "recruit" description then 95%Z
                      else if str_in "recruit" title then 85%Z else 70%Z in
    let source := if str_in "recruit" description then "description"
                  else if str_in "recruit" title then "title" else "company_name" in
    mkCap "recruiting" specifics confidence source
  else if re_search_i (plain ["marketing agency"; "ad agency"; "advertising agency";
                              "creative agency"; "pr agency"]) combined then
    mkCap "marketing"
      (concat [tag_if (re_search_i (plain ["startup"; "venture"]) combined) "startups";
               tag_if (re_search_i (plain ["enterprise"; "b2b"]) combined) "enterprise"])
      90 "description"
  else if re_search_i (plain ["dev shop"; "development agency"; "software agency";
                              "software consultancy"; "app development"]) combined then
    mkCap "engineering"
      (concat [tag_if (re_search_i (plain ["startup"]) combined) "startups";
               tag_if (re_search_i (plain ["mobile"; "ios"; "android"]) combined) "mobile"])
      80 "description"
  else if re_search_i (plain ["consulting firm"; "advisory firm"; "management consulting";
                              "strategy consulting"; "consultancy"]) combined then
    mkCap "consulting" [] 75 "description"
  else if re_search_i (plain ["fractional"; "interim"; "outsourced cfo"; "outsourced coo";
                              "part-time executive"]) combined then
    mkCap "fractional" [] 80 "title"
  else if re_search_i (plain ["biotech"; "pharma"; "therapeutic"; "clinical"; "life science";
                              "biopharma"]) combined then
    mkCap "biotech_contact" [] 70 "industry"
  else if re_search_i (plain ["health"; "medical"; "hospital"]) combined
          && negb (re_search_i (plain ["biotech"; "pharma"]) combined) then
    mkCap "healthcare_contact" [] 65 "industry"
  else if re_search_i (words ["software"] ++ plain ["saas"] ++ words ["cloud"] ++
                       plain ["platform"])%list combined
          && negb (re_search_i (plain ["agency"; "shop"; "development company"; "consultancy"])
                               combined) then
    mkCap "tech_contact" [] 60 "industry"
  else if re_search_i (plain ["financ"; "banking"; "investment"; "capital"]) combined
          && negb (re_search_i (plain ["recruit"]) combined) then
    mkCap "finance_contact" [] 60 "industry"
  else if re_search_i (plain ["business development"; "licensing"; "partnerships"] ++
                       [Alt false "bd" true])%list title then
    mkCap "bd_professional" [] 70 "title"
  else if re_search_i (plain ["ceo"; "cto"; "cfo"; "coo"; "founder"; "co-founder";
                              "president"; "chief"]) title then
    mkCap "executive" [] 50 "title"
  else mkCap "professional" [] 30 "none")
  end.

(* ------------------------------------------------------------------ *)
(** ** Alignment and tier *)

Definition str_mem (x : string) (l : list string) : bool := existsb (String.eqb x) l.

Definition industry_matches : list (string * list string) := [
  ("biotech", ["biotech_contact"; "bd_professional"]);
  ("healthcare", ["healthcare_contact"; "biotech_contact"]);
  ("tech", ["tech_contact"; "engineering"]);
  ("fintech", ["finance_contact"; "tech_contact"]);
  ("finance_co", ["finance_contact"; "consulting"])].

Definition cross_matches : list (string * list string) := [
  ("engineering", ["recruiting"; "consulting"]);
  ("sales", ["marketing"; "recruiting"]);
  ("marketing", ["sales"; "growth"]);
  ("finance", ["consulting"; "fractional"])].

(** The industry-pair step: [Some 50] / [Some 40] when it returns. *)
Definition industry_pair_score (need_cat cap_cat : string) : option Z :=
  match Semantic.dict_get industry_matches need_cat with
  | Some l =>
      if String.eqb (default EmptyString (head l)) cap_cat then Some 50%Z
      else if str_mem cap_cat l then Some 40%Z
      else None
  | None => None
  end.

Definition score_alignment (need : NeedProfile) (capability : CapabilityProfile) : Z :=
  let need_cat := n_category need in
  let cap_cat := c_category capability in
  match industry_pair_score need_cat cap_cat with
  | Some v => v
  | None =>
  if String.eqb cap_cat "recruiting"
     && str_mem need_cat ["engineering"; "sales"; "marketing"; "finance"; "operations";
                          "recruiting"] then 45
  else if String.eqb cap_cat "engineering" && String.eqb need_cat "engineering" then 40
  else if String.eqb cap_cat "marketing" && String.eqb need_cat "marketing" then 50
  else if String.eqb cap_cat "consulting"
          && str_mem need_cat ["operations"; "growth"; "finance_co"; "company"] then 35
  else if String.eqb cap_cat "fractional"
          && str_mem need_cat ["growth"; "finance"; "operations"] then 40
  else if String.eqb cap_cat "bd_professional" then
    if str_mem need_cat ["growth"; "biotech"; "healthcare"; "tech"; "fintech"] then 35 else 20
  else if String.eqb cap_cat "executive" then
    if String.eqb need_cat "growth" then 30 else 15
  else if String.eqb need_cat "growth" then
    if str_mem cap_cat ["marketing"; "recruiting"] then 40
    else if str_mem cap_cat ["consulting"; "fractional"] then 35
    else if negb (str_mem cap_cat ["general"; "professional"]) then 25
    else 15
  else if match Semantic.dict_get cross_matches need_cat with
          | Some l => str_mem cap_cat l
          | None => false
          end then 25
  else if str_mem need_cat ["general"; "company"] then
    if str_mem cap_cat ["consulting"; "bd_professional"] then 20 else 15
  else if str_mem cap_cat ["general"; "professional"] then 10
  else 5
  end.

Definition need_labels : list (string * string) := [
  ("engineering", "Hiring engineers"); ("sales", "Hiring sales");
  ("marketing", "Hiring marketing"); ("recruiting", "Hiring recruiters");
  ("finance", "Hiring finance"); ("operations", "Hiring operations");
  ("growth", "Raised funding"); ("general", "Active company");
  ("biotech", "Biotech company"); ("healthcare", "Healthcare company");
  ("tech", "Tech company"); ("fintech", "Fintech company");
  ("finance_co", "Finance company"); ("company", "Company")].

Definition cap_labels : list (string * string) := [
  ("recruiting", "Recruiter"); ("marketing", "Marketing agency");
  ("engineering", "Dev shop"); ("consulting", "Consultant");
  ("fractional", "Fractional exec"); ("sales", "Sales consultant");
  ("finance", "Finance consultant"); ("operations", "Ops consultant");
  ("growth", "Growth partner"); ("general", "Provider");
  ("biotech_contact", "Biotech BD contact"); ("healthcare_contact", "Healthcare contact");
  ("tech_contact", "Tech contact"); ("finance_contact", "Finance contact");
  ("bd_professional", "BD professional"); ("executive", "Executive");
  ("professional", "Professional")].

(** [demand_signal_label] is [None] or the label; an empty label is falsy. *)
Definition determine_tier (score : Z) (need : NeedProfile) (capability : CapabilityProfile)
    (demand_signal_label : option string) : tier * string :=
  let need_label :=
    match demand_signal_label with
    | Some l => if String.eqb l EmptyString
                then default (n_category need) (Semantic.dict_get need_labels (n_category need))
                else l
    | None => default (n_category need) (Semantic.dict_get need_labels (n_category need))
    end in
  let cap_label := default "Provider" (Semantic.dict_get cap_labels (c_category capability)) in
  let tier_reason := need_label ++ " → " ++ cap_label in
  (* combined_confidence = (n + c) / 2, compared in hundredths *)
  let conf_sum := (n_confidence need + c_confidence capability)%Z in
  if (70 <=? score)%Z && (140 <=? conf_sum)%Z then (Strong, tier_reason)
  else if (45 <=? score)%Z || ((30 <=? score)%Z && (100 <=? conf_sum)%Z) then (Good, tier_reason)
  else (Open, tier_reason).

(* ------------------------------------------------------------------ *)
(** ** Feature scorers *)

Definition related_groups : list (list string) := [
  ["software"; "tech"; "technology"; "saas"; "it"];
  ["finance"; "fintech"; "banking"; "financial services"];
  ["healthcare"; "health"; "medical"; "biotech"; "pharma"];
  ["staffing"; "recruiting"; "hr"; "talent"; "human resources"];
  ["marketing"; "advertising"; "media"; "digital marketing"];
  ["sales"; "business development"; "revenue"]].

(** The first element of a non-empty list, or the scalar itself; only
    called on truthy fields, so the list is never empty there. *)
Definition first_of (f : field) : string := default EmptyString (first_or_scalar f).

Definition score_industry (demand_industry supply_industry : field) : Z :=
  if negb (field_truthy demand_industry) || negb (field_truthy supply_industry) then 10
  else
    let d := lower (first_of demand_industry) in
    let s := lower (first_of supply_industry) in
    if String.eqb d s then 30
    else if str_in d s || str_in s d then 20
    else if existsb (fun group => existsb (fun term => str_in term d) group
                                  && existsb (fun term => str_in term s) group)
                    related_groups then 15
    else 5.

Definition score_signal (demand_signal supply_title : string) (supply_industry : field) : Z :=
  if String.eqb demand_signal EmptyString then 5
  else
    let signal := lower demand_signal in
    let title := lower supply_title in
    let industry := lower (to_string_safe supply_industry) in
    let ti := title ++ industry in
    let is_engineering := re_search (plain ["engineer"; "developer"; "software"; "tech"; "cto"]) signal in
    let is_sales := re_search (plain ["sales"; "account"; "revenue"; "sdr"; "bdr"]) signal in
    let is_marketing := re_search (plain ["marketing"; "growth"; "brand"; "content"]) signal in
    let is_recruiting := re_search (plain ["recruiter"; "talent"; "hr"; "hiring"]) signal in
    let is_finance := re_search (plain ["finance"; "cfo"; "accounting"; "controller"]) signal in
    let supply_serves_engineering := re_search (plain ["engineer"; "developer"; "tech"; "software"]) ti in
    let supply_serves_sales := re_search (plain ["sales"; "revenue"; "business"]) ti in
    let supply_serves_marketing := re_search (plain ["marketing"; "growth"; "brand"]) ti in
    let supply_serves_recruiting := re_search (plain ["recruit"; "staffing"; "talent"; "hr"]) ti in
    let supply_serves_finance := re_search (plain ["finance"; "accounting"; "cfo"]) ti in
    if is_engineering && supply_serves_engineering then 40
    else if is_sales && supply_serves_sales then 40
    else if is_marketing && supply_serves_marketing then 40
    else if is_recruiting && supply_serves_recruiting then 40
    else if is_finance && supply_serves_finance then 40
    else if supply_serves_recruiting then 25
    else 10.

Definition is_digit (c : ascii) : bool :=
  let n := ascii_code c in (48 <=? n)%nat && (n <=? 57)%nat.

(** [int(s)] on a string of decimal digits. *)
Definition digits_value (s : string) : Z :=
  fold_left (fun acc c => 10 * acc + Z.of_nat (ascii_code c - 48))%Z
            (list_ascii_of_string s) 0%Z.

(** [parse_size]: drop the non-digits, default 50.  Python refuses to
    convert digit strings of more than 4300 digits and then also returns
    50; sizes are taken to be shorter. *)
Definition parse_size (size : string) : Z :=
  let num_str := string_of_list_ascii (filter is_digit (list_ascii_of_string size)) in
  if String.eqb num_str EmptyString then 50 else digits_value num_str.

(** The ratio [d / max(s, 1)] is compared exactly with 0.5, 5, 0.2 and 10. *)
Definition score_size (demand_size supply_size : field) : Z :=
  if negb (field_truthy demand_size) || negb (field_truthy supply_size) then 10
  else
    let d := parse_size (first_of demand_size) in
    let m := Z.max (parse_size (first_of supply_size)) 1 in
    if (m <=? 2 * d)%Z && (d <=? 5 * m)%Z then 20
    else if (m <=? 5 * d)%Z && (d <=? 10 * m)%Z then 15
    else 5.

(** Python's [round] of [n / d] for [d > 0]: to nearest, ties to even. *)
Definition py_round_div (n d : Z) : Z :=
  let q := (n / d)%Z in
  let r := (n mod d)%Z in
  if (2 * r <? d)%Z then q
  else if (d <? 2 * r)%Z then q + 1
  else if Z.even q then q else q + 1.

(* ------------------------------------------------------------------ *)
(** ** Composite score *)

(** The five weights [0.15, 0.15, 0.10, 0.50, 0.10] in hundredths. *)
Definition weighted_x100 (industry_score signal_score size_score alignment_score : Z) : Z :=
  15 * industry_score + 15 * signal_score + 10 * size_score + 50 * alignment_score
  + 10 * 10.

Definition score_match (demand supply : NormalizedRecord) : option Match :=
  let need_profile := extract_need_from_demand demand in
  match extract_capability_from_supply supply with
  | None => None
  | Some capability_profile =>
  let industry_score := score_industry (industry demand) (industry supply) in
  let r1 := tag_if (20 <? industry_score)%Z "Industry match" in
  let signal_score := score_signal (signal demand) (title supply) (industry supply) in
  let r2 := tag_if (25 <? signal_score)%Z "Signal alignment" in
  let size_score := score_size (size demand) (size supply) in
  let r3 := tag_if (10 <? size_score)%Z "Size fit" in
  let alignment_score := score_alignment need_profile capability_profile in
  let r4 :=
    if (40 <=? alignment_score)%Z then
      [n_category need_profile ++ " need → " ++ c_category capability_profile ++ " capability"]
    else if (25 <=? alignment_score)%Z then ["Cross-functional fit"]
    else [] in
  let demand_text := signal demand ++ " " ++ title demand ++ " "
                     ++ company_description demand ++ " " ++ to_string_safe (industry demand) in
  let supply_text := signal supply ++ " " ++ title supply ++ " "
                     ++ company_description supply ++ " " ++ to_string_safe (industry supply) in
  let semantic_result := Semantic.get_semantic_score demand_text supply_text in
  let semantic_bonus := Semantic.bonus semantic_result in
  let r5 :=
    if (20 <=? semantic_bonus)%Z then
      ["Strong keyword overlap (" ++ pretty (Semantic.s_overlapCount semantic_result)
       ++ " matches)"]
    else if (10 <=? semantic_bonus)%Z then
      ["Keyword overlap (" ++ pretty (Semantic.s_overlapCount semantic_result) ++ " matches)"]
    else [] in
  let total_x100 :=
    (weighted_x100 industry_score signal_score size_score alignment_score
     + 100 * semantic_bonus)%Z in
  let total_score := Z.min 100 (py_round_div total_x100 100) in
  let (tr, tier_reason) :=
    determine_tier total_score need_profile capability_profile
      (option_map label (signal_meta demand)) in
  let reasons := concat [r1; r2; r3; r4; r5] in
  let (total_score, reasons) :=
    if (total_score =? 0)%Z then (1%Z, (reasons ++ ["Exploratory match"])%list)
    else (total_score, reasons) in
  Some {| m_demand := demand; m_supply := supply; score := total_score;
          m_reasons := reasons; m_tier := tr; tier_reason := tier_reason;
          need_profile := need_profile; capability_profile := capability_profile |}
  end.

(* ------------------------------------------------------------------ *)
(** ** Orchestration and aggregation *)

(** [list.sort(key=key, reverse=True)]: stable, non-increasing in [key],
    equal keys in their original order. *)
Fixpoint insert_desc {A} (key : A -> Z) (x : A) (l : list A) : list A :=
  match l with
  | [] => [x]
  | y :: t => if (key y <=? key x)%Z then x :: y :: t else y :: insert_desc key x t
  end.

Fixpoint sort_desc {A} (key : A -> Z) (l : list A) : list A :=
  match l with
  | [] => []
  | x :: t => insert_desc key x (sort_desc key t)
  end.

Definition get_demand_key (demand : NormalizedRecord) : string :=
  if negb (String.eqb (record_key demand) EmptyString) then record_key demand
  else if negb (String.eqb (full_name demand) EmptyString) then full_name demand
  else company demand ++ "-" ++ title demand.

Definition get_supply_key (supply : NormalizedRecord) : string :=
  if negb (String.eqb (record_key supply) EmptyString) then record_key supply
  else if negb (String.eqb (domain supply) EmptyString) then domain supply
  else if negb (String.eqb (full_name supply) EmptyString) then full_name supply
  else company supply ++ "-" ++ title supply.

Definition match_key (m : Match) : string := get_demand_key (m_demand m).

(** The loop of [get_best_match_per_demand] with its [seen] set. *)
Fixpoint best_aux (seen : gset string) (matches : list Match) : list Match :=
  match matches with
  | [] => []
  | m :: t =>
      let key := match_key m in
      if decide (key ∈ seen) then best_aux seen t
      else m :: best_aux ({[key]} ∪ seen) t
  end.

Definition get_best_match_per_demand (matches : list Match) : list Match :=
  best_aux ∅ matches.

Record Aggregate := {
  agg_supply : NormalizedRecord;
  agg_matches : list Match;
  best_match : Match;
  total_matches : Z }.

(** [by_supply.setdefault(key, []).append(match)] on a dict kept in
    insertion order. *)
Fixpoint group_insert (key : string) (m : Match) (groups : list (string * list Match))
  : list (string * list Match) :=
  match groups with
  | [] => [(key, [m])]
  | (k, ms) :: t =>
      if String.eqb k key then (k, (ms ++ [m])%list) :: t
      else (k, ms) :: group_insert key m t
  end.

Definition group_by_supply (matches : list Match) : list (string * list Match) :=
  fold_left (fun g m => group_insert (get_supply_key (m_supply m)) m g) matches [].

(** One aggregate; [None] is the [IndexError] of [supplier_matches[0]]
    on an empty group. *)
Definition make_aggregate (group : string * list Match) : option Aggregate :=
  let supplier_matches := sort_desc score group.2 in
  let unique_demand_keys : gset string := list_to_set (map match_key supplier_matches) in
  match supplier_matches with
  | [] => None
  | m0 :: _ =>
      Some {| agg_supply := m_supply m0; agg_matches := supplier_matches;
              best_match := m0; total_matches := Z.of_nat (stdpp.base.size unique_demand_keys) |}
  end.

Definition aggregate_by_supply (matches : list Match) : option (list Aggregate) :=
  aggregates ← mapM make_aggregate (group_by_supply matches);
  Some (sort_desc total_matches aggregates).

Record Stats := {
  total_demand : Z; total_supply : Z; st_total_matches : Z;
  unique_demands_matched : Z; avg_score : Z }.

Record MatchingResult := {
  demand_matches : list Match;
  supply_aggregates : list Aggregate;
  stats : Stats }.

(** The double loop of [match_records]: every pair in loop order whose
    score reaches [min_score].  The progress callback only observes the
    loop and is left out. *)
Definition score_row (min_score : Z) (d : NormalizedRecord) (supply : list NormalizedRecord)
  : option (list Match) :=
  row ← mapM (score_match d) supply;
  Some (filter (fun m => (min_score <=? score m)%Z) row).

Definition scored_pairs (demand supply : list NormalizedRecord) (min_score : Z)
  : option (list Match) :=
  rows ← mapM (fun d => score_row min_score d supply) demand;
  Some (concat rows).

Definition sum_Z (l : list Z) : Z := fold_right Z.add 0%Z l.

Definition match_records (demand supply : list NormalizedRecord) (min_score : Z)
    (best_match_only : bool) : option MatchingResult :=
  unsorted ← scored_pairs demand supply min_score;
  let all_matches := sort_desc score unsorted in
  let demand_matches :=
    if best_match_only then get_best_match_per_demand all_matches else all_matches in
  supply_aggregates ← aggregate_by_supply demand_matches;
  let scores := map score all_matches in
  let avg_score :=
    match scores with
    | [] => 0%Z
    | _ => py_round_div (sum_Z scores) (Z.of_nat (length scores))
    end in
  let unique_demands : gset string := list_to_set (map match_key demand_matches) in
  Some {| demand_matches := demand_matches;
          supply_aggregates := supply_aggregates;
          stats := {| total_demand := Z.of_nat (length demand);
                      total_supply := Z.of_nat (length supply);
                      st_total_matches := Z.of_nat (length demand_matches);
                      unique_demands_matched := Z.of_nat (stdpp.base.size unique_demands);
                      avg_score := avg_score |} |}.
End Matcher.

(* ------------------------------------------------------------------ *)
(** ** [filter_by_score] (matcher.py) *)

Module MatcherFilter.
Import Matcher.

(** [filter_by_score] keys demands by [m.demand.domain or
    m.demand.company_name]; the [company_name] attribute belongs to the
    record class of connector/models.py, which is not part of the sources
    at hand, so it is a parameter here.  The threshold is an integer, as
    the scores it is compared with. *)
Section Filter.
Variable company_name : NormalizedRecord -> string.

Definition keep (min_score : Z) (m : Match) : bool := (min_score <=? score m)%Z.

(** One aggregate of the loop: [None] when no match survives,
    [{**agg, 'matches': ..., 'best_match': ..., 'total_matches': ...}]
    otherwise. *)
Definition filter_aggregate (min_score : Z) (agg : Aggregate) : option Aggregate :=
  match filter (keep min_score) (agg_matches agg) with
  | [] => None
  | m0 :: t =>
      Some {| agg_supply := agg_supply agg; agg_matches := m0 :: t;
              best_match := m0; total_matches := Z.of_nat (length (m0 :: t)) |}
  end.

Definition filter_aggregates (min_score : Z) (aggs : list Aggregate) : list Aggregate :=
  omap (filter_aggregate min_score) aggs.

Definition filter_demand_key (m : Match) : string :=
  if String.eqb (domain (m_demand m)) EmptyString then company_name (m_demand m)
  else domain (m_demand m).

Definition filter_by_score (result : MatchingResult) (min_score : Z) : MatchingResult :=
  let filtered_demand := filter (keep min_score) (demand_matches result) in
  let filtered_aggregates := filter_aggregates min_score (supply_aggregates result) in
  let filtered_scores := map score filtered_demand in
  let avg_score :=
    match filtered_scores with
    | [] => 0%Z
    | _ => py_round_div (sum_Z filtered_scores) (Z.of_nat (length filtered_scores))
    end in
  let unique_demands : gset string := list_to_set (map filter_demand_key filtered_demand) in
  {| demand_matches := filtered_demand;
     supply_aggregates := filtered_aggregates;
     stats := {| total_demand := total_demand (stats result);
                 total_supply := total_supply (stats result);
                 st_total_matches := Z.of_nat (length filtered_demand);
                 unique_demands_matched := Z.of_nat (stdpp.base.size unique_demands);
                 avg_score := avg_score |} |}.

End Filter.
End MatcherFilter.

(* ------------------------------------------------------------------ *)
(** ** Sample records *)

Module Examples.

Definition blank : NormalizedRecord :=
  {| domain := EmptyString; company := EmptyString; full_name := EmptyString;
     title := EmptyString; industry := FStr EmptyString; signal := EmptyString;
     signal_meta := None; company_description := EmptyString;
     company_funding := EmptyString; size := FStr EmptyString; record_key := EmptyString |}.

(** The hiring demand of the spec's scenario. *)
Definition hiring_demand : NormalizedRecord :=
  {| domain := EmptyString; company := "Acme"; full_name := EmptyString; title := EmptyString;
     industry := FStr "software"; signal := "Hiring: Senior Software Engineer";
     signal_meta := Some {| kind := "HIRING_ROLE"; label := EmptyString |};
     company_description := EmptyString; company_funding := EmptyString;
     size := FStr "50"; record_key := "d1" |}.

(** A recruiting agency. *)
Definition recruiting_supply : NormalizedRecord :=
  {| domain := "x.example"; company := "X"; full_name := EmptyString; title := "Founder";
     industry := FStr "software"; signal := EmptyString; signal_meta := None;
     company_description := "recruiting agency for engineers";
     company_funding := EmptyString; size := FStr "10"; record_key := EmptyString |}.

(** A staffing agency whose description never says "recruit". *)
Definition staffing_supply : NormalizedRecord :=
  {| domain := EmptyString; company := EmptyString; full_name := EmptyString;
     title := EmptyString; industry := FStr EmptyString; signal := EmptyString;
     signal_meta := None; company_description := "staffing agency";
     company_funding := EmptyString; size := FStr EmptyString; record_key := EmptyString |}.

End Examples.

(** Non-increasing order on a key, the order produced by
    [sort(key=..., reverse=True)]. *)
Module Orders.
Definition desc {A} (key : A -> Z) (a b : A) : Prop := (key b <= key a)%Z.

(** The tiers in increasing strength. *)
Definition tier_rank (t : tier) : nat :=
  match t with Open => 0 | Good => 1 | Strong => 2 end.
End Orders.

(** A state of [expand_semantic_signals] in which every key of [reasons]
    is in [expanded] and carries at least one reason. *)
Module ExpansionInvariant.
Definition reasons_ok (st : gset string * gmap string (list string)) : Prop :=
  forall e rs, st.2 !! e = Some rs -> e ∈ st.1 /\ rs <> [].
End ExpansionInvariant.

(* ================================================================== *)
(** * Properties of the semantic expander *)

Module SemanticFacts.
Import Semantic.

Definition state := (gset string * gmap string (list string))%type.

Definition tagged (r e : string) (st : state) : Prop :=
  exists rs, st.2 !! e = Some rs /\ r ∈ rs.

Lemma fold_expanded_mono {A} (f : state -> A -> state) :
  (forall st x, st.1 ⊆ (f st x).1) ->
  forall l st, st.1 ⊆ (fold_left f l st).1.
Proof.
  intros Hf l. induction l as [|x l IH]; intros st; simpl.
  - done.
  - etrans; [apply Hf | apply IH].
Qed.

Lemma add_with_reason_mono r st e : st.1 ⊆ (add_with_reason r st e).1.
Proof. destruct st; simpl. set_solver. Qed.

Lemma add_if_new_mono r st e : st.1 ⊆ (add_if_new r st e).1.
Proof.
  unfold add_if_new. case_decide; [done|]. apply add_with_reason_mono.
Qed.

Lemma expand_token_mono ctx m st token : st.1 ⊆ (expand_token ctx m st token).1.
Proof.
  unfold expand_token.
  assert (H1 : st.1 ⊆ (match dict_get m (lower token) with
            | Some exps => fold_left (fun st e => add_with_reason
                             ("taxonomy:" ++ lower token) st (lower e)) exps st
            | None => st end).1).
  { destruct (dict_get m (lower token)); [|done].
    apply fold_expanded_mono. intros. apply add_with_reason_mono. }
  destruct (resolve_ambiguous_term (lower token) ctx) as [res|]; [|exact H1].
  etrans; [exact H1|].
  assert (Hf : forall r l st', st'.1 ⊆ (fold_left (fun st e => add_with_reason r st (lower e)) l st').1).
  { intros. apply fold_expanded_mono. intros. apply add_with_reason_mono. }
  destruct res, (ctx_side ctx);
    first [ apply Hf | reflexivity | (etrans; [|apply Hf]; reflexivity) ].
Qed.

Lemma token_loop_mono tokens ctx base0 : base0 ⊆ (token_loop tokens ctx base0).1.
Proof.
  unfold token_loop. change base0 with ((base0, ∅ : gmap string (list string)).1) at 1.
  apply fold_expanded_mono. intros. apply expand_token_mono.
Qed.

Lemma fold_add_if_new_mono r l st :
  st.1 ⊆ (fold_left (fun st e => add_if_new r st (lower e)) l st).1.
Proof. apply fold_expanded_mono. intros. apply add_if_new_mono. Qed.

Lemma fold_add_if_new_contains r l st e :
  e ∈ l -> lower e ∈ (fold_left (fun st e => add_if_new r st (lower e)) l st).1.
Proof.
  revert st. induction l as [|x l IH]; intros st Hin; [set_solver|].
  cbn [fold_left]. apply elem_of_cons in Hin as [->|Hin]; [|by apply IH].
  apply fold_add_if_new_mono. unfold add_if_new. case_decide; [done|].
  destruct st; simpl. set_solver.
Qed.

(** [e]'s provenance list holds the tag [r]. *)
Lemma add_with_reason_tagged r r' st e e' :
  tagged r e st -> tagged r e (add_with_reason r' st e').
Proof.
  unfold tagged. destruct st as [ex rs]; intros (l & Hl & Hr); unfold add_with_reason; simpl in *.
  destruct (decide (e = e')) as [->|Hne].
  - eexists; split; [apply lookup_insert_eq|]. rewrite Hl; simpl. set_solver.
  - exists l. split; [|done]. rewrite lookup_insert_ne; [done|congruence].
Qed.

Lemma fold_add_if_new_tagged_keep r r' l st e :
  tagged r e st -> tagged r e (fold_left (fun st e => add_if_new r' st (lower e)) l st).
Proof.
  revert st. induction l as [|x l IH]; intros st H; [done|].
  cbn [fold_left]. apply IH. unfold add_if_new. case_decide; [done|].
  by apply add_with_reason_tagged.
Qed.

Lemma fold_add_if_new_tagged r l st e :
  e ∈ l -> lower e ∉ st.1 ->
  tagged r (lower e) (fold_left (fun st e => add_if_new r st (lower e)) l st).
Proof.
  revert st. induction l as [|x l IH]; intros st Hin Hnot; [set_solver|].
  cbn [fold_left]. destruct (decide (lower e = lower x)) as [Heq|Hne].
  - apply fold_add_if_new_tagged_keep. unfold add_if_new. rewrite <- Heq.
    case_decide; [done|]. destruct st as [ex rs]; simpl.
    eexists; split; [apply lookup_insert_eq|]. set_solver.
  - apply elem_of_cons in Hin as [->|Hin]; [done|]. apply IH; [done|].
    unfold add_if_new. case_decide; [done|]. destruct st; simpl in *. set_solver.
Qed.

(** No provenance list of [st] holds the tag [r]. *)
Definition no_tag (r : string) (st : state) : Prop :=
  forall e rs, st.2 !! e = Some rs -> r ∉ rs.

Lemma add_with_reason_no_tag r r' st e :
  r' <> r -> no_tag r st -> no_tag r (add_with_reason r' st e).
Proof.
  destruct st as [ex rs]. intros Hne H e' rs'. unfold add_with_reason; simpl.
  destruct (decide (e' = e)) as [->|He].
  - rewrite lookup_insert_eq. intros [= <-] Hin.
    apply elem_of_app in Hin as [Hin|Hin].
    + destruct (rs !! e) as [l|] eqn:El; simpl in Hin; [exact (H e l El Hin)|set_solver].
    + apply list_elem_of_singleton in Hin. congruence.
  - rewrite lookup_insert_ne by congruence. apply H.
Qed.

Lemma fold_add_no_tag r r' l st :
  r' <> r -> no_tag r st ->
  no_tag r (fold_left (fun st e => add_with_reason r' st (lower e)) l st).
Proof.
  revert st. induction l as [|x l IH]; intros st Hne H; [exact H|].
  cbn [fold_left]. apply IH; [exact Hne|]. by apply add_with_reason_no_tag.
Qed.

Lemma expand_token_no_tag ctx m st token :
  no_tag "text:recruiting_detected" st ->
  no_tag "text:recruiting_detected" (expand_token ctx m st token).
Proof.
  intros H. unfold expand_token. cbv zeta.
  assert (H1 : exists st1, no_tag "text:recruiting_detected" st1 /\
    match dict_get m (lower token) with
    | Some exps => fold_left (fun st e => add_with_reason
                     (String.append "taxonomy:" (lower token)) st (lower e)) exps st
    | None => st end = st1).
  { destruct (dict_get m (lower token)) as [vs|]; [|eauto].
    eexists; split; [|reflexivity]. apply fold_add_no_tag; [discriminate|exact H]. }
  destruct H1 as (st1 & H1 & E1). rewrite ?E1.
  destruct (resolve_ambiguous_term (lower token) ctx) as [[]|]; [| |exact H1];
    destruct (ctx_side ctx); try exact H1;
    apply fold_add_no_tag; first [discriminate | exact H1].
Qed.

Lemma token_loop_no_tag tokens ctx base0 :
  no_tag "text:recruiting_detected" (token_loop tokens ctx base0).
Proof.
  unfold token_loop.
  assert (H0 : no_tag "text:recruiting_detected" (base0, (∅ : gmap string (list string)))).
  { intros e rs H. simpl in H. rewrite lookup_empty in H. discriminate H. }
  revert H0. generalize (base0, (∅ : gmap string (list string))).
  induction tokens as [|x tokens IH]; intros st H; [exact H|].
  cbn [fold_left]. apply IH. by apply expand_token_no_tag.
Qed.

(** [add_if_new] leaves a term that is already present as it was. *)
Lemma fold_add_if_new_keep r l st e :
  e ∈ st.1 ->
  (fold_left (fun st e => add_if_new r st (lower e)) l st).2 !! e = st.2 !! e.
Proof.
  revert st. induction l as [|x l IH]; intros st He; [reflexivity|].
  cbn [fold_left]. rewrite IH.
  - unfold add_if_new. case_decide as Hx; [reflexivity|].
    destruct st as [ex rs]; simpl in *. rewrite lookup_insert_ne; [reflexivity|].
    intros Heq. apply Hx. rewrite Heq. exact He.
  - apply add_if_new_mono, He.
Qed.

End SemanticFacts.

(** C10: expansion only adds.  The base set is the set of lower-cased
    input tokens, and the expanded set returned by expand_semantic_signals
    contains it, for every token list and every context. *)
Theorem expand_semantic_signals_extends (tokens : list string) (ctx : Semantic.SemanticContext) :
  Semantic.base (Semantic.expand_semantic_signals tokens ctx) = list_to_set (map lower tokens)
  /\ Semantic.base (Semantic.expand_semantic_signals tokens ctx)
     ⊆ Semantic.expanded (Semantic.expand_semantic_signals tokens ctx).
Proof.
  unfold Semantic.expand_semantic_signals; cbv [negb Semantic.SEMANTIC_MATCHING_ENABLED]; cbn zeta beta iota.
  split; [reflexivity|]. cbn [Semantic.base Semantic.expanded].
  pose proof (SemanticFacts.token_loop_mono tokens ctx (list_to_set (map lower tokens))) as H1.
  repeat match goal with
         | |- context [if ?b then _ else _] => destruct b
         end;
    repeat (etrans; [|apply SemanticFacts.fold_add_if_new_mono]); exact H1.
Qed.

(** C4 (counterexample): the term "growth" resolves to a capability on the
    supply side of the text "growth team", which contains none of the
    recruiting-context keywords recruit, recruiting, staffing, talent,
    headhunt, placement, sourcing: the term "growth" is gated by the
    hiring-context keywords, "team" among them. *)
Lemma resolve_growth_supply_without_recruiting_keyword :
  Semantic.resolve_ambiguous_term "growth"
    {| Semantic.ctx_side := Semantic.Supply; Semantic.ctx_text := "growth team" |}
  = Some Semantic.Capability
  /\ forallb (fun k => negb (str_in k "growth team"))
       ["recruit"; "recruiting"; "staffing"; "talent"; "headhunt"; "placement"; "sourcing"]
     = true.
Proof. split; vm_compute; reflexivity. Qed.

(** C4 (amended): resolve_ambiguous_term returns 'capability' exactly on
    the supply side, and there for engineering/engineer/engineers, sales
    and marketing exactly when the lower-cased text matches the
    recruiting-context pattern
    \b(recruit|recruiting|staffing|talent|headhunt|placement|sourcing)\b,
    and for growth exactly when it matches the hiring-context pattern
    \b(hire|hiring|team|headcount|recruit|talent|staffing|placement)\b. *)
Theorem resolve_ambiguous_term_capability_iff (term : string) (ctx : Semantic.SemanticContext) :
  Semantic.resolve_ambiguous_term term ctx = Some Semantic.Capability <->
  Semantic.ctx_side ctx = Semantic.Supply /\
  (((lower term = "engineering" \/ lower term = "engineer" \/ lower term = "engineers"
     \/ lower term = "sales" \/ lower term = "marketing")
    /\ re_search Semantic.recruiting_context_re (lower (Semantic.ctx_text ctx)) = true)
   \/ (lower term = "growth"
       /\ re_search Semantic.hiring_context_re (lower (Semantic.ctx_text ctx)) = true)).
Proof.
  unfold Semantic.resolve_ambiguous_term.
  destruct ctx as [sd text]; cbn [Semantic.ctx_side Semantic.ctx_text existsb].
  generalize (re_search Semantic.hiring_context_re (lower text)) as h.
  generalize (re_search Semantic.recruiting_context_re (lower text)) as rc.
  generalize (lower term) as lt. intros lt rc h.
  destruct (String.eqb_spec lt "engineering") as [->|];
  [|destruct (String.eqb_spec lt "engineer") as [->|];
  [|destruct (String.eqb_spec lt "engineers") as [->|];
  [|destruct (String.eqb_spec lt "sales") as [->|];
  [|destruct (String.eqb_spec lt "marketing") as [->|];
  [|destruct (String.eqb_spec lt "growth") as [->|]]]]]];
  destruct sd, rc, h; cbn; split; intros; intuition congruence.
Qed.

(** C6 (counterexample): the supply text "recruiter" contains the
    substring "recruit" but does not match the whole-word pattern
    \b(recruit|recruiting|staffing|talent|headhunt|placement)\b, and the
    recruiting expansion (here "hiring") is not added. *)
Lemma recruiter_text_not_detected :
  str_in "recruit" "recruiter" = true
  /\ "hiring" ∉ Semantic.expanded
        (Semantic.expand_semantic_signals (Semantic.extract_tokens "recruiter")
           {| Semantic.ctx_side := Semantic.Supply; Semantic.ctx_text := "recruiter" |}).
Proof. split; [vm_compute; reflexivity|]. apply (bool_decide_eq_false _). vm_compute. reflexivity. Qed.

(** C6 (amended): when the lower-cased supply text matches the whole-word
    pattern \b(recruit|recruiting|staffing|talent|headhunt|placement)\b,
    every term of the 'recruiting' expansion set is in the expanded set,
    and every such term not already added by the token loop carries the
    provenance tag 'text:recruiting_detected'. *)
Theorem supply_text_recruiting_detected (tokens : list string) (text : string) :
  re_search Semantic.supply_text_re (lower text) = true ->
  let ctx := {| Semantic.ctx_side := Semantic.Supply; Semantic.ctx_text := text |} in
  let r := Semantic.expand_semantic_signals tokens ctx in
  forall e, e ∈ Semantic.list_lookup_or_nil Semantic.SUPPLY_CAPABILITY_EXPANSIONS "recruiting" ->
    e ∈ Semantic.expanded r
    /\ (e ∉ (Semantic.token_loop tokens ctx (list_to_set (map lower tokens))).1 ->
        exists rs, Semantic.reasons r !! e = Some rs /\ "text:recruiting_detected" ∈ rs)
    /\ (e ∈ (Semantic.token_loop tokens ctx (list_to_set (map lower tokens))).1 ->
        Semantic.reasons r !! e
        = (Semantic.token_loop tokens ctx (list_to_set (map lower tokens))).2 !! e
        /\ forall rs, Semantic.reasons r !! e = Some rs -> "text:recruiting_detected" ∉ rs).
Proof.
  intros Hre ctx r e He.
  assert (Hlow : lower e = e).
  { revert He. vm_compute. intros He. repeat (apply elem_of_cons in He as [->|He]; [reflexivity|]).
    apply elem_of_nil in He. contradiction. }
  subst r ctx. unfold Semantic.expand_semantic_signals.
  cbv [negb Semantic.SEMANTIC_MATCHING_ENABLED]; cbn zeta beta iota.
  cbn [Semantic.ctx_side Semantic.ctx_text Semantic.is_supply Semantic.is_demand andb].
  rewrite Hre. cbn [Semantic.expanded Semantic.reasons].
  split; [|split].
  - rewrite <- Hlow. by apply SemanticFacts.fold_add_if_new_contains.
  - intros Hnot. rewrite <- Hlow in Hnot |- *.
    by apply SemanticFacts.fold_add_if_new_tagged.
  - intros Hin. rewrite SemanticFacts.fold_add_if_new_keep by exact Hin.
    split; [reflexivity|]. intros rs Hrs.
    exact (SemanticFacts.token_loop_no_tag _ _ _ e rs Hrs).
Qed.

(** C6 witness: "Staffing agency" is detected, and "hiring" is added. *)
Lemma supply_text_recruiting_detected_witness :
  re_search Semantic.supply_text_re (lower "Staffing agency") = true
  /\ "hiring" ∈ Semantic.expanded
       (Semantic.expand_semantic_signals ["staffing"; "agency"]
          {| Semantic.ctx_side := Semantic.Supply; Semantic.ctx_text := "Staffing agency" |}).
Proof.
  assert (H : re_search Semantic.supply_text_re (lower "Staffing agency") = true)
    by (vm_compute; reflexivity).
  split; [exact H|].
  apply (proj1 (supply_text_recruiting_detected ["staffing"; "agency"] "Staffing agency" H
                  "hiring" ltac:(compute_done))).
Defined.

(* ================================================================== *)
(** * Properties of the scorers *)

Module MatcherFacts.
Import Matcher.

Ltac destruct_ifs :=
  repeat match goal with
         | |- context [if ?b then _ else _] => destruct b
         end.

Lemma score_industry_range d s : (5 <= score_industry d s <= 30)%Z.
Proof. unfold score_industry. destruct_ifs; lia. Qed.

Lemma score_signal_range sg t i : (5 <= score_signal sg t i <= 40)%Z.
Proof. unfold score_signal. cbn zeta. destruct_ifs; lia. Qed.

Lemma score_size_range d s : (5 <= score_size d s <= 20)%Z.
Proof. unfold score_size. cbn zeta. destruct_ifs; lia. Qed.

Lemma industry_pair_score_range n c v :
  industry_pair_score n c = Some v -> v = 50%Z \/ v = 40%Z.
Proof.
  unfold industry_pair_score. destruct (Semantic.dict_get _ _); [|discriminate].
  destruct_ifs; intros H; inversion H; auto.
Qed.

Lemma score_alignment_range n c : (5 <= score_alignment n c <= 50)%Z.
Proof.
  unfold score_alignment. cbn zeta.
  destruct (industry_pair_score _ _) as [v|] eqn:E.
  - apply industry_pair_score_range in E. lia.
  - destruct_ifs; lia.
Qed.

Lemma semantic_bonus_range dt st : (0 <= Semantic.bonus (Semantic.get_semantic_score dt st) <= 30)%Z.
Proof.
  unfold Semantic.get_semantic_score, Semantic.calculate_semantic_bonus; cbn zeta.
  cbn [Semantic.bonus]. destruct_ifs; lia.
Qed.

Lemma weighted_x100_ge n1 n2 n3 n4 :
  (5 <= n1)%Z -> (5 <= n2)%Z -> (5 <= n3)%Z -> (5 <= n4)%Z ->
  (550 <= weighted_x100 n1 n2 n3 n4)%Z.
Proof. unfold weighted_x100. lia. Qed.

Lemma py_round_div_ge6 x : (550 <= x)%Z -> (6 <= py_round_div x 100)%Z.
Proof.
  intros Hx. unfold py_round_div.
  pose proof (Z.div_mod x 100 ltac:(lia)) as Hdm.
  pose proof (Z.mod_pos_bound x 100 ltac:(lia)) as Hb.
  assert (Hq : (5 <= x / 100)%Z) by (apply Z.div_le_lower_bound; lia).
  destruct (Z.eq_dec (x / 100)%Z 5%Z) as [Hq5|Hq5].
  - rewrite Hq5 in *. assert (50 <= x mod 100)%Z by lia.
    destruct (2 * (x mod 100) <? 100)%Z eqn:E1; [apply Z.ltb_lt in E1; lia|].
    destruct (100 <? 2 * (x mod 100))%Z; [lia|]. reflexivity.
  - destruct_ifs; lia.
Qed.

(** Strings as lists of characters. *)
Lemma list_ascii_of_string_app a b :
  list_ascii_of_string (a ++ b) = app (list_ascii_of_string a) (list_ascii_of_string b).
Proof. induction a as [|c a IH]; simpl; [done|]. by rewrite IH. Qed.

Lemma category_reason_not_exploratory a b :
  (a ++ " need → " ++ b ++ " capability")%string <> "Exploratory match".
Proof.
  intros H. apply (f_equal (fun s => rev (list_ascii_of_string s))) in H.
  rewrite !list_ascii_of_string_app, !rev_app_distr in H. simpl in H. discriminate.
Qed.

Lemma score_match_facts d s m :
  score_match d s = Some m ->
  (6 <= score m <= 100)%Z /\ "Exploratory match" ∉ m_reasons m.
Proof.
  unfold score_match. destruct (extract_capability_from_supply s) as [cap|]; [|discriminate].
  cbv zeta. intros H.
  pose proof (score_industry_range (industry d) (industry s)) as Hi.
  pose proof (score_signal_range (signal d) (title s) (industry s)) as Hsg.
  pose proof (score_size_range (size d) (size s)) as Hsz.
  pose proof (score_alignment_range (extract_need_from_demand d) cap) as Hal.
  set (dt := (signal d ++ " " ++ title d ++ " " ++ company_description d ++ " " ++ to_string_safe (industry d))%string) in *.
  set (st := (signal s ++ " " ++ title s ++ " " ++ company_description s ++ " " ++ to_string_safe (industry s))%string) in *.
  pose proof (semantic_bonus_range dt st) as Hb.
  set (i := score_industry (industry d) (industry s)) in *.
  set (sg := score_signal (signal d) (title s) (industry s)) in *.
  set (sz := score_size (size d) (size s)) in *.
  set (al := score_alignment (extract_need_from_demand d) cap) in *.
  set (sr := Semantic.get_semantic_score dt st) in *. clearbody i sg sz al sr.
  set (t := Z.min 100 (py_round_div (weighted_x100 i sg sz al + 100 * Semantic.bonus sr) 100)) in *.
  assert (Ht : (6 <= t <= 100)%Z).
  { subst t. pose proof (weighted_x100_ge i sg sz al ltac:(lia) ltac:(lia) ltac:(lia) ltac:(lia)).
    pose proof (py_round_div_ge6 (weighted_x100 i sg sz al + 100 * Semantic.bonus sr) ltac:(lia)).
    lia. }
  destruct (determine_tier _ _ _ _) as [tr trr].
  rewrite (proj2 (Z.eqb_neq t 0)) in H by lia.
  injection H as <-. cbn [score m_reasons]. split; [exact Ht|].
  unfold tag_if. destruct_ifs; rewrite ?elem_of_app, ?elem_of_cons, ?elem_of_nil;
    intros Hin; repeat destruct Hin as [Hin|Hin];
    first [ discriminate | contradiction
          | exact (category_reason_not_exploratory _ _ (eq_sym Hin))
          | (cbn in Hin; discriminate) ].
Qed.
End MatcherFacts.

(** C9: every component score is at least 5 (industry, signal, size,
    alignment), so the weighted blend is at least 5.5 and rounds to at
    least 6; the final score of every Match built by score_match is at least
    6, so the [total_score == 0] branch is never taken and no Match carries
    the reason 'Exploratory match'. *)
Theorem score_match_never_exploratory (d s : NormalizedRecord) (m : Match) :
  Matcher.score_match d s = Some m ->
  (5 <= Matcher.score_industry (industry d) (industry s))%Z
  /\ (5 <= Matcher.score_signal (signal d) (title s) (industry s))%Z
  /\ (5 <= Matcher.score_size (size d) (size s))%Z
  /\ (5 <= Matcher.score_alignment (need_profile m) (capability_profile m))%Z
  /\ (6 <= Matcher.py_round_div
            (Matcher.weighted_x100 (Matcher.score_industry (industry d) (industry s))
               (Matcher.score_signal (signal d) (title s) (industry s))
               (Matcher.score_size (size d) (size s))
               (Matcher.score_alignment (need_profile m) (capability_profile m))) 100)%Z
  /\ (6 <= score m)%Z
  /\ "Exploratory match" ∉ m_reasons m.
Proof.
  intros H.
  pose proof (MatcherFacts.score_industry_range (industry d) (industry s)).
  pose proof (MatcherFacts.score_signal_range (signal d) (title s) (industry s)).
  pose proof (MatcherFacts.score_size_range (size d) (size s)).
  pose proof (MatcherFacts.score_alignment_range (need_profile m) (capability_profile m)).
  pose proof (MatcherFacts.score_match_facts d s m H) as [Hs Hr].
  repeat split; try lia; try exact Hr.
  apply MatcherFacts.py_round_div_ge6, MatcherFacts.weighted_x100_ge; lia.
Qed.

Lemma score_match_never_exploratory_witness :
  match Matcher.score_match Examples.hiring_demand Examples.recruiting_supply with
  | Some m => (6 <= score m)%Z /\ "Exploratory match" ∉ m_reasons m
  | None => False
  end.
Proof.
  pose proof (score_match_never_exploratory Examples.hiring_demand Examples.recruiting_supply) as T.
  destruct (Matcher.score_match Examples.hiring_demand Examples.recruiting_supply) as [m|] eqn:E.
  - destruct (T m eq_refl) as (_ & _ & _ & _ & _ & H6 & Hr). split; [exact H6 | exact Hr].
  - vm_compute in E. discriminate E.
Defined.

(** C5 (counterexample): a supply whose description is "staffing agency"
    is classified as a recruiting provider because of the keyword
    "staffing" found in its description, yet its confidence is 0.7 and its
    source 'company_name' (its company name is empty). *)
Lemma staffing_description_source_company_name :
  Matcher.extract_capability_from_supply Examples.staffing_supply
  = Some {| c_category := "recruiting"; c_specifics := []; c_confidence := 70;
            c_source := "company_name" |}
  /\ str_in "staffing" (lower (company_description Examples.staffing_supply)) = true
  /\ company Examples.staffing_supply = EmptyString.
Proof. repeat split; vm_compute; reflexivity. Qed.

(** C5 (amended): when extract_capability_from_supply classifies a supply
    as 'recruiting', its confidence and source depend only on where the
    substring "recruit" occurs: 0.95 and 'description' when it occurs in
    the lower-cased company description, else 0.85 and 'title' when it
    occurs in the lower-cased title, else 0.7 and 'company_name', whatever
    keyword triggered the classification. *)
Theorem extract_capability_recruiting_source (supply : NormalizedRecord) (cap : CapabilityProfile) :
  Matcher.extract_capability_from_supply supply = Some cap ->
  c_category cap = "recruiting" ->
  (c_confidence cap, c_source cap) =
  (if str_in "recruit" (lower (company_description supply)) then (95%Z, "description")
   else if str_in "recruit" (lower (title supply)) then (85%Z, "title")
   else (70%Z, "company_name")).
Proof.
  unfold Matcher.extract_capability_from_supply.
  destruct (Matcher.first_or_scalar (industry supply)) as [ind|]; [|discriminate].
  cbv zeta.
  destruct (re_search_i Matcher.recruiting_provider_re _).
  - intros H; injection H as <-. cbn [c_confidence c_source Matcher.mkCap].
    intros _. destruct (str_in "recruit" (lower (company_description supply))); [reflexivity|].
    destruct (str_in "recruit" (lower (title supply))); reflexivity.
  - intros H. revert H. MatcherFacts.destruct_ifs; intros H; injection H as <-;
      cbn [c_category Matcher.mkCap]; discriminate.
Qed.

Lemma extract_capability_recruiting_source_witness :
  match Matcher.extract_capability_from_supply Examples.recruiting_supply with
  | Some cap => (c_confidence cap, c_source cap) = (95%Z, "description")
  | None => False
  end.
Proof.
  pose proof (extract_capability_recruiting_source Examples.recruiting_supply) as T.
  destruct (Matcher.extract_capability_from_supply Examples.recruiting_supply) as [cap|] eqn:E.
  - rewrite (T cap eq_refl).
    + vm_compute. reflexivity.
    + vm_compute in E. injection E as <-. reflexivity.
  - vm_compute in E. discriminate E.
Defined.

(* ================================================================== *)
(** * Properties of the orchestration *)

Module OrchestrationFacts.
Import Matcher Orders.

Section Sorting.
Context {A : Type} (key : A -> Z).

Lemma insert_desc_perm x l : Permutation (insert_desc key x l) (x :: l).
Proof.
  induction l as [|y l IH]; simpl; [done|].
  destruct (key y <=? key x)%Z; [done|].
  etrans; [apply perm_skip, IH|]. apply perm_swap.
Qed.

Lemma sort_desc_perm l : Permutation (sort_desc key l) l.
Proof.
  induction l as [|x l IH]; simpl; [done|].
  etrans; [apply insert_desc_perm|]. by apply perm_skip.
Qed.

Lemma insert_desc_sorted x l : Sorted (desc key) l -> Sorted (desc key) (insert_desc key x l).
Proof.
  unfold desc. induction l as [|y l IH]; intros H; simpl.
  - repeat constructor.
  - destruct (key y <=? key x)%Z eqn:E.
    + apply Z.leb_le in E. constructor; [done|]. by constructor.
    + apply Z.leb_gt in E. inversion H as [|? ? Hs Hhd]; subst.
      constructor; [by apply IH|].
      destruct l as [|z l]; simpl.
      * constructor. lia.
      * destruct (key z <=? key x)%Z; constructor; [lia|].
        inversion Hhd; subst. done.
Qed.

Lemma sort_desc_sorted l : Sorted (desc key) (sort_desc key l).
Proof. induction l; simpl; [constructor|]. by apply insert_desc_sorted. Qed.

Lemma sort_desc_strongly_sorted l : StronglySorted (desc key) (sort_desc key l).
Proof.
  apply Sorted_StronglySorted; [|apply sort_desc_sorted].
  intros a b c; unfold desc; lia.
Qed.

End Sorting.

Lemma best_aux_in seen l m :
  In m (best_aux seen l) -> In m l /\ match_key m ∉ seen.
Proof.
  revert seen. induction l as [|x l IH]; intros seen; simpl; [done|].
  case_decide as Hx.
  - intros Hm. destruct (IH seen Hm). auto.
  - intros [<-|Hm]; [auto|]. destruct (IH _ Hm) as [? Hn]. split; [auto|]. set_solver.
Qed.

Lemma best_aux_keys seen l k :
  In k (map match_key (best_aux seen l)) <-> In k (map match_key l) /\ k ∉ seen.
Proof.
  revert seen. induction l as [|x l IH]; intros seen; simpl; [tauto|].
  case_decide as Hx.
  - rewrite IH. split; [tauto|]. intros [[<-|?] ?]; [done|tauto].
  - simpl. rewrite IH. split.
    + intros [<-|[? ?]]; [split; auto|]. split; [tauto|]. set_solver.
    + intros [[<-|?] ?]; [by left|]. destruct (decide (k = match_key x)); [by left|].
      right. split; [done|]. set_solver.
Qed.

Lemma best_aux_nodup seen l : NoDup (map match_key (best_aux seen l)).
Proof.
  revert seen. induction l as [|x l IH]; intros seen; simpl; [constructor|].
  case_decide as Hx; [apply IH|]. simpl. constructor; [|apply IH].
  intros Hin%list_elem_of_In. apply best_aux_keys in Hin. set_solver.
Qed.

Lemma best_aux_max seen l m m' :
  StronglySorted (desc score) l -> In m (best_aux seen l) -> In m' l ->
  match_key m' = match_key m -> (score m' <= score m)%Z.
Proof.
  revert seen. induction l as [|x l IH]; intros seen Hs; simpl; [done|].
  apply StronglySorted_inv in Hs as [Hs Hall].
  case_decide as Hx.
  - intros Hm [<-|Hm'] Hk.
    + apply best_aux_in in Hm as [_ Hn]. rewrite <- Hk in Hn. done.
    + by apply (IH seen).
  - intros [<-|Hm] [<-|Hm'] Hk.
    + lia.
    + rewrite List.Forall_forall in Hall. apply (Hall m' Hm').
    + apply best_aux_in in Hm as [_ Hn]. rewrite <- Hk in Hn. set_solver.
    + by apply (IH _ Hs Hm Hm').
Qed.

Lemma best_aux_sorted seen l :
  StronglySorted (desc score) l -> StronglySorted (desc score) (best_aux seen l).
Proof.
  revert seen. induction l as [|x l IH]; intros seen Hs; simpl; [constructor|].
  apply StronglySorted_inv in Hs as [Hs Hall].
  case_decide; [by apply IH|]. constructor; [by apply IH|].
  rewrite List.Forall_forall in *. intros y Hy. apply best_aux_in in Hy as [Hy _]. auto.
Qed.


Lemma Forall2_In_r {A B} (R : A -> B -> Prop) l k y :
  Forall2 R l k -> In y k -> exists x, In x l /\ R x y.
Proof.
  induction 1 as [|x y' l k Hxy _ IH]; simpl; [done|].
  intros [<-|Hy]; [eauto|]. destruct (IH Hy) as (x' & ? & ?). eauto.
Qed.

Lemma scored_pairs_in demand supply min_score ps m :
  scored_pairs demand supply min_score = Some ps -> In m ps ->
  exists d s, score_match d s = Some m /\ (min_score <= score m)%Z.
Proof.
  unfold scored_pairs. destruct (mapM _ demand) as [rows|] eqn:E; [|discriminate].
  intros H. injection H as <-. apply mapM_Some_1 in E.
  intros (row & Hrow & Hm)%in_concat.
  destruct (Forall2_In_r _ _ _ _ E Hrow) as (d & _ & Hd).
  unfold score_row in Hd. destruct (mapM (score_match d) supply) as [row0|] eqn:E0;
    [|discriminate].
  injection Hd as <-. apply mapM_Some_1 in E0.
  apply list_elem_of_In, list_elem_of_filter in Hm as [Hle Hm].
  apply list_elem_of_In in Hm.
  destruct (Forall2_In_r _ _ _ _ E0 Hm) as (s & _ & Hs).
  exists d, s. split; [exact Hs|]. apply Z.leb_le. by apply Is_true_true.
Qed.

Lemma group_insert_perm key m groups :
  Permutation (concat (map snd (group_insert key m groups)))
    (m :: concat (map snd groups)).
Proof.
  induction groups as [|[k ms] t IH]; simpl; [done|].
  destruct (String.eqb k key); simpl.
  - rewrite <- app_assoc. simpl. symmetry. apply Permutation_middle.
  - etrans; [apply Permutation_app_head, IH|]. symmetry. apply Permutation_middle.
Qed.

Lemma group_by_supply_fold_perm matches groups :
  Permutation
    (concat (map snd (fold_left (fun g m => group_insert (get_supply_key (m_supply m)) m g)
                        matches groups)))
    (matches ++ concat (map snd groups)).
Proof.
  revert groups. induction matches as [|m t IH]; intros groups; simpl; [done|].
  etrans; [apply IH|]. etrans; [apply Permutation_app_head, group_insert_perm|].
  symmetry. apply Permutation_middle.
Qed.

Lemma group_by_supply_perm matches :
  Permutation (concat (map snd (group_by_supply matches))) matches.
Proof.
  unfold group_by_supply. etrans; [apply group_by_supply_fold_perm|].
  simpl. by rewrite app_nil_r.
Qed.

Lemma make_aggregate_Some g a :
  make_aggregate g = Some a ->
  agg_matches a = sort_desc score g.2
  /\ total_matches a
     = Z.of_nat (stdpp.base.size (list_to_set (map match_key (agg_matches a)) : gset string)).
Proof.
  unfold make_aggregate; cbv zeta.
  destruct (sort_desc score g.2) as [|m0 t] eqn:E; [discriminate|].
  intros H. injection H as <-. simpl. split; [first [reflexivity | symmetry; exact E] | reflexivity].
Qed.

Lemma aggregate_by_supply_in matches aggs a :
  aggregate_by_supply matches = Some aggs -> In a aggs ->
  exists g, In g (group_by_supply matches) /\ make_aggregate g = Some a.
Proof.
  unfold aggregate_by_supply.
  destruct (mapM make_aggregate (group_by_supply matches)) as [aggs0|] eqn:E; [|discriminate].
  intros H. injection H as <-. intros Ha.
  apply (Permutation_in _ (sort_desc_perm total_matches aggs0)) in Ha.
  apply mapM_Some_1 in E. destruct (Forall2_In_r _ _ _ _ E Ha) as (g & Hg & Hga). eauto.
Qed.

Lemma aggregate_by_supply_member matches aggs a m :
  aggregate_by_supply matches = Some aggs -> In a aggs -> In m (agg_matches a) ->
  In m matches.
Proof.
  intros H Ha Hm. destruct (aggregate_by_supply_in _ _ _ H Ha) as (g & Hg & Hga).
  apply make_aggregate_Some in Hga as [Heq _]. rewrite Heq in Hm.
  apply (Permutation_in _ (sort_desc_perm score g.2)) in Hm.
  apply (Permutation_in _ (group_by_supply_perm matches)).
  apply in_concat. exists g.2. split; [|exact Hm]. by apply in_map.
Qed.

Lemma aggregate_by_supply_sorted matches aggs :
  aggregate_by_supply matches = Some aggs -> Sorted (desc total_matches) aggs.
Proof.
  unfold aggregate_by_supply. destruct (mapM _ _); [|discriminate].
  intros H. injection H as <-. apply sort_desc_sorted.
Qed.

Lemma match_records_Some demand supply min_score best r :
  match_records demand supply min_score best = Some r ->
  exists ps, scored_pairs demand supply min_score = Some ps
  /\ demand_matches r = (if best then best_aux ∅ (sort_desc score ps) else sort_desc score ps)
  /\ aggregate_by_supply (demand_matches r) = Some (supply_aggregates r)
  /\ avg_score (stats r)
     = match map score (sort_desc score ps) with
       | [] => 0%Z
       | scores => py_round_div (sum_Z scores) (Z.of_nat (length scores))
       end.
Proof.
  unfold match_records.
  destruct (scored_pairs demand supply min_score) as [ps|]; [|discriminate]. simpl.
  destruct (aggregate_by_supply _) as [aggs|] eqn:E; [|discriminate]. simpl.
  intros H. injection H as <-. exists ps. simpl. repeat split; [exact E|].
  by destruct (map score (sort_desc score ps)).
Qed.

Lemma demand_matches_sub demand supply min_score best r ps m :
  match_records demand supply min_score best = Some r ->
  scored_pairs demand supply min_score = Some ps ->
  In m (demand_matches r) -> In m ps.
Proof.
  intros H Hps. destruct (match_records_Some _ _ _ _ _ H) as (ps' & Hps' & Hdm & _).
  rewrite Hps in Hps'. injection Hps' as <-. rewrite Hdm. intros Hm.
  apply (Permutation_in _ (sort_desc_perm score ps)).
  destruct best; [|exact Hm]. by apply best_aux_in in Hm as [? _].
Qed.

Lemma sum_Z_perm l l' : Permutation l l' -> sum_Z l = sum_Z l'.
Proof. induction 1; unfold sum_Z in *; simpl; lia. Qed.

Lemma py_round_div_nearest n d :
  (0 < d)%Z -> (Z.abs (2 * (n - py_round_div n d * d)) <= d)%Z.
Proof.
  intros Hd. unfold py_round_div.
  pose proof (Z.div_mod n d ltac:(lia)) as Hdm.
  pose proof (Z.mod_pos_bound n d Hd) as Hb.
  set (q := (n / d)%Z) in *. set (r := (n mod d)%Z) in *.
  destruct (Z.ltb_spec (2 * r) d); [lia|].
  destruct (Z.ltb_spec d (2 * r)); [lia|].
  destruct (Z.even q); lia.
Qed.

End OrchestrationFacts.

(** C1: every Match returned by match_records, in demand_matches and in
    the matches of every supply aggregate, has a score between 1 and 100. *)
Theorem match_records_score_bounds (demand supply : list NormalizedRecord) (min_score : Z)
    (best_match_only : bool) (r : Matcher.MatchingResult) :
  Matcher.match_records demand supply min_score best_match_only = Some r ->
  (forall m, In m (Matcher.demand_matches r) -> (1 <= score m <= 100)%Z)
  /\ (forall a m, In a (Matcher.supply_aggregates r) -> In m (Matcher.agg_matches a) ->
        (1 <= score m <= 100)%Z).
Proof.
  intros H.
  destruct (OrchestrationFacts.match_records_Some _ _ _ _ _ H) as (ps & Hps & _ & Hagg & _).
  assert (Hdm : forall m, In m (Matcher.demand_matches r) -> (1 <= score m <= 100)%Z).
  { intros m Hm.
    pose proof (OrchestrationFacts.demand_matches_sub _ _ _ _ _ _ m H Hps Hm) as Hin.
    destruct (OrchestrationFacts.scored_pairs_in _ _ _ _ _ Hps Hin) as (d & s & Hs & _).
    destruct (MatcherFacts.score_match_facts d s m Hs) as [Hb _]. lia. }
  split; [exact Hdm|].
  intros a m Ha Hm. apply Hdm.
  exact (OrchestrationFacts.aggregate_by_supply_member _ _ _ _ Hagg Ha Hm).
Qed.

Lemma match_records_score_bounds_witness :
  match Matcher.match_records [Examples.hiring_demand] [Examples.recruiting_supply] 0 true with
  | Some r => forall m, In m (Matcher.demand_matches r) -> (1 <= score m <= 100)%Z
  | None => False
  end.
Proof.
  pose proof (match_records_score_bounds [Examples.hiring_demand] [Examples.recruiting_supply]
                0 true) as T.
  destruct (Matcher.match_records [Examples.hiring_demand] [Examples.recruiting_supply] 0 true)
    as [r|] eqn:E.
  - exact (proj1 (T r eq_refl)).
  - vm_compute in E. discriminate E.
Defined.

(** C2: with best_match_only set, the demand keys of demand_matches are
    pairwise distinct, they are exactly the demand keys of the pairs that
    pass the min_score filter, and each returned Match is one of those
    pairs and has the largest score among the passing pairs of its key. *)
Theorem match_records_best_per_demand (demand supply : list NormalizedRecord) (min_score : Z)
    (r : Matcher.MatchingResult) (ps : list Match) :
  Matcher.match_records demand supply min_score true = Some r ->
  Matcher.scored_pairs demand supply min_score = Some ps ->
  NoDup (map Matcher.match_key (Matcher.demand_matches r))
  /\ (forall k, In k (map Matcher.match_key ps)
                <-> In k (map Matcher.match_key (Matcher.demand_matches r)))
  /\ (forall m, In m (Matcher.demand_matches r) ->
        In m ps
        /\ forall m', In m' ps -> Matcher.match_key m' = Matcher.match_key m ->
                      (score m' <= score m)%Z).
Proof.
  intros H Hps.
  destruct (OrchestrationFacts.match_records_Some _ _ _ _ _ H) as (ps' & Hps' & Hdm & _).
  rewrite Hps in Hps'. injection Hps' as <-. rewrite Hdm.
  pose proof (OrchestrationFacts.sort_desc_perm score ps) as Hperm.
  split; [apply OrchestrationFacts.best_aux_nodup|]. split.
  - intros k. rewrite OrchestrationFacts.best_aux_keys.
    split; [|intros [Hk _]; exact (Permutation_in _ (Permutation_map _ Hperm) Hk)].
    intros Hk. split; [|set_solver].
    exact (Permutation_in _ (Permutation_map _ (Permutation_sym Hperm)) Hk).
  - intros m Hm.
    destruct (OrchestrationFacts.best_aux_in _ _ _ Hm) as [Hin _].
    split; [exact (Permutation_in _ Hperm Hin)|].
    intros m' Hm' Hk.
    apply (OrchestrationFacts.best_aux_max ∅ (Matcher.sort_desc score ps) m m').
    + apply OrchestrationFacts.sort_desc_strongly_sorted.
    + exact Hm.
    + exact (Permutation_in _ (Permutation_sym Hperm) Hm').
    + exact Hk.
Qed.

Lemma match_records_best_per_demand_witness :
  match Matcher.match_records [Examples.hiring_demand]
          [Examples.recruiting_supply; Examples.staffing_supply] 0 true,
        Matcher.scored_pairs [Examples.hiring_demand]
          [Examples.recruiting_supply; Examples.staffing_supply] 0 with
  | Some r, Some ps => NoDup (map Matcher.match_key (Matcher.demand_matches r))
                       /\ length ps = 2 /\ length (Matcher.demand_matches r) = 1
  | _, _ => False
  end.
Proof.
  pose proof (match_records_best_per_demand [Examples.hiring_demand]
                [Examples.recruiting_supply; Examples.staffing_supply] 0) as T.
  destruct (Matcher.match_records [Examples.hiring_demand]
              [Examples.recruiting_supply; Examples.staffing_supply] 0 true) as [r|] eqn:E;
    [|vm_compute in E; discriminate E].
  destruct (Matcher.scored_pairs [Examples.hiring_demand]
              [Examples.recruiting_supply; Examples.staffing_supply] 0) as [ps|] eqn:E2;
    [|vm_compute in E2; discriminate E2].
  split; [exact (proj1 (T r ps eq_refl eq_refl))|].
  vm_compute in E. vm_compute in E2. injection E as <-. injection E2 as <-.
  split; reflexivity.
Defined.

(** C3: the demand_matches returned by match_records are sorted by
    non-increasing score, in both modes, and the supply_aggregates by
    non-increasing total_matches. *)
Theorem match_records_sorted (demand supply : list NormalizedRecord) (min_score : Z)
    (best_match_only : bool) (r : Matcher.MatchingResult) :
  Matcher.match_records demand supply min_score best_match_only = Some r ->
  Sorted (fun a b => (score b <= score a)%Z) (Matcher.demand_matches r)
  /\ Sorted (fun a b => (Matcher.total_matches b <= Matcher.total_matches a)%Z)
       (Matcher.supply_aggregates r).
Proof.
  intros H.
  destruct (OrchestrationFacts.match_records_Some _ _ _ _ _ H) as (ps & _ & Hdm & Hagg & _).
  split.
  - rewrite Hdm. destruct best_match_only.
    + apply StronglySorted_Sorted, OrchestrationFacts.best_aux_sorted,
        OrchestrationFacts.sort_desc_strongly_sorted.
    + apply OrchestrationFacts.sort_desc_sorted.
  - exact (OrchestrationFacts.aggregate_by_supply_sorted _ _ Hagg).
Qed.

Lemma match_records_sorted_witness :
  match Matcher.match_records [Examples.hiring_demand]
          [Examples.recruiting_supply; Examples.staffing_supply] 0 false with
  | Some r => Sorted (fun a b => (score b <= score a)%Z) (Matcher.demand_matches r)
              /\ length (Matcher.demand_matches r) = 2
  | None => False
  end.
Proof.
  pose proof (match_records_sorted [Examples.hiring_demand]
                [Examples.recruiting_supply; Examples.staffing_supply] 0 false) as T.
  destruct (Matcher.match_records [Examples.hiring_demand]
              [Examples.recruiting_supply; Examples.staffing_supply] 0 false) as [r|] eqn:E;
    [|vm_compute in E; discriminate E].
  split; [exact (proj1 (T r eq_refl))|].
  vm_compute in E. injection E as <-. reflexivity.
Defined.

(** C7: the total_matches of every supply aggregate returned by
    match_records is the number of distinct demand keys among the matches
    of the group; when these keys are pairwise distinct it is the number
    of matches of the group. *)
Theorem match_records_total_matches_unique (demand supply : list NormalizedRecord)
    (min_score : Z) (best_match_only : bool) (r : Matcher.MatchingResult)
    (a : Matcher.Aggregate) :
  Matcher.match_records demand supply min_score best_match_only = Some r ->
  In a (Matcher.supply_aggregates r) ->
  Matcher.total_matches a
  = Z.of_nat (stdpp.base.size
                (list_to_set (map Matcher.match_key (Matcher.agg_matches a)) : gset string))
  /\ (NoDup (map Matcher.match_key (Matcher.agg_matches a)) ->
      Matcher.total_matches a = Z.of_nat (length (Matcher.agg_matches a))).
Proof.
  intros H Ha.
  destruct (OrchestrationFacts.match_records_Some _ _ _ _ _ H) as (ps & _ & _ & Hagg & _).
  destruct (OrchestrationFacts.aggregate_by_supply_in _ _ _ Hagg Ha) as (g & _ & Hg).
  destruct (OrchestrationFacts.make_aggregate_Some _ _ Hg) as [_ Ht].
  split; [exact Ht|].
  intros Hnd. rewrite Ht, size_list_to_set by exact Hnd. by rewrite length_map.
Qed.

Lemma match_records_total_matches_unique_witness :
  match Matcher.match_records [Examples.hiring_demand; Examples.hiring_demand; Examples.blank]
          [Examples.recruiting_supply] 0 false with
  | Some r =>
      match Matcher.supply_aggregates r with
      | a :: _ =>
          Matcher.total_matches a
          = Z.of_nat (stdpp.base.size
                        (list_to_set (map Matcher.match_key (Matcher.agg_matches a)) : gset string))
          /\ Matcher.total_matches a = 2%Z
          /\ length (Matcher.agg_matches a) = 3%nat
      | [] => False
      end
  | None => False
  end.
Proof.
  pose proof (match_records_total_matches_unique [Examples.hiring_demand; Examples.hiring_demand; Examples.blank]
                [Examples.recruiting_supply] 0 false) as T.
  destruct (Matcher.match_records [Examples.hiring_demand; Examples.hiring_demand; Examples.blank]
              [Examples.recruiting_supply] 0 false) as [r|] eqn:E;
    [|vm_compute in E; discriminate E].
  destruct (Matcher.supply_aggregates r) as [|a t] eqn:Ea;
    [vm_compute in E; injection E as <-; discriminate Ea|].
  assert (Ha : In a (Matcher.supply_aggregates r)) by (rewrite Ea; left; reflexivity).
  split; [exact (proj1 (T r a eq_refl Ha))|].
  vm_compute in E. injection E as <-. vm_compute in Ea. injection Ea as <- _.
  split; reflexivity.
Defined.

(** C8: the avg_score of the stats of match_records is 0 when no pair
    passes the min_score filter, and otherwise the sum of the scores of all
    passing pairs (taken before best_match_only selection) divided by
    their number, rounded half to even; it is then within one half of the
    exact mean. *)
Theorem match_records_avg_score (demand supply : list NormalizedRecord) (min_score : Z)
    (best_match_only : bool) (r : Matcher.MatchingResult) (ps : list Match) :
  Matcher.match_records demand supply min_score best_match_only = Some r ->
  Matcher.scored_pairs demand supply min_score = Some ps ->
  Matcher.avg_score (Matcher.stats r)
  = match ps with
    | [] => 0%Z
    | _ => Matcher.py_round_div (Matcher.sum_Z (map score ps)) (Z.of_nat (length ps))
    end
  /\ (ps <> [] ->
      (Z.abs (2 * (Matcher.sum_Z (map score ps)
                   - Matcher.avg_score (Matcher.stats r) * Z.of_nat (length ps)))
       <= Z.of_nat (length ps))%Z).
Proof.
  intros H Hps.
  destruct (OrchestrationFacts.match_records_Some _ _ _ _ _ H) as (ps' & Hps' & _ & _ & Havg).
  rewrite Hps in Hps'. injection Hps' as <-.
  assert (Heq : Matcher.avg_score (Matcher.stats r)
                = match ps with
                  | [] => 0%Z
                  | _ => Matcher.py_round_div (Matcher.sum_Z (map score ps)) (Z.of_nat (length ps))
                  end).
  { rewrite Havg.
    pose proof (Permutation_map score (OrchestrationFacts.sort_desc_perm score ps)) as Hp.
    destruct ps as [|x t]; [reflexivity|].
    destruct (map score (Matcher.sort_desc score (x :: t))) as [|y l].
    - apply Permutation_nil in Hp. discriminate Hp.
    - cbv beta iota zeta. rewrite (OrchestrationFacts.sum_Z_perm _ _ Hp), (Permutation_length Hp), length_map.
      reflexivity. }
  split; [exact Heq|].
  intros Hne. rewrite Heq. destruct ps as [|x t]; [contradiction|].
  apply OrchestrationFacts.py_round_div_nearest. simpl. lia.
Qed.

Lemma match_records_avg_score_witness :
  match Matcher.match_records [Examples.hiring_demand]
          [Examples.recruiting_supply; Examples.staffing_supply] 0 true,
        Matcher.scored_pairs [Examples.hiring_demand]
          [Examples.recruiting_supply; Examples.staffing_supply] 0 with
  | Some r, Some ps =>
      Matcher.avg_score (Matcher.stats r)
      = Matcher.py_round_div (Matcher.sum_Z (map score ps)) (Z.of_nat (length ps))
      /\ length ps = 2
  | _, _ => False
  end.
Proof.
  pose proof (match_records_avg_score [Examples.hiring_demand]
                [Examples.recruiting_supply; Examples.staffing_supply] 0 true) as T.
  destruct (Matcher.match_records [Examples.hiring_demand]
              [Examples.recruiting_supply; Examples.staffing_supply] 0 true) as [r|] eqn:E;
    [|vm_compute in E; discriminate E].
  destruct (Matcher.scored_pairs [Examples.hiring_demand]
              [Examples.recruiting_supply; Examples.staffing_supply] 0) as [ps|] eqn:E2;
    [|vm_compute in E2; discriminate E2].
  destruct (T r ps eq_refl eq_refl) as [Havg _].
  vm_compute in E2. injection E2 as <-.
  split; [exact Havg | reflexivity].
Defined.

(* ================================================================== *)
(** * Further properties of the scorers and of the matching pipeline *)

Module ScorerFacts.
Import Matcher.

Lemma existsb_andb_comm {A} (f g : A -> bool) l :
  existsb (fun x => f x && g x) l = existsb (fun x => g x && f x) l.
Proof. induction l as [|x l IH]; simpl; [done|]. by rewrite andb_comm, IH. Qed.

Lemma digits_value_nonneg_aux l acc :
  (0 <= acc)%Z ->
  (0 <= fold_left (fun acc c => 10 * acc + Z.of_nat (ascii_code c - 48))%Z l acc)%Z.
Proof.
  revert acc. induction l as [|c l IH]; intros acc Hacc; simpl; [done|]. apply IH. lia.
Qed.

Lemma determine_tier_zero_one need cap lbl :
  determine_tier 0 need cap lbl = determine_tier 1 need cap lbl.
Proof. reflexivity. Qed.

Lemma score_match_shape (d s : NormalizedRecord) (m : Match) :
  score_match d s = Some m ->
  m_demand m = d /\ m_supply m = s
  /\ need_profile m = extract_need_from_demand d
  /\ extract_capability_from_supply s = Some (capability_profile m)
  /\ (m_tier m, tier_reason m)
     = determine_tier (score m) (need_profile m) (capability_profile m)
         (option_map label (signal_meta d)).
Proof.
  unfold score_match.
  destruct (extract_capability_from_supply s) as [cap|]; [|discriminate].
  cbv zeta. intros H.
  set (dt := (signal d ++ " " ++ title d ++ " " ++ company_description d ++ " " ++ to_string_safe (industry d))%string) in *.
  set (st := (signal s ++ " " ++ title s ++ " " ++ company_description s ++ " " ++ to_string_safe (industry s))%string) in *.
  set (i := score_industry (industry d) (industry s)) in *.
  set (sg := score_signal (signal d) (title s) (industry s)) in *.
  set (sz := score_size (size d) (size s)) in *.
  set (al := score_alignment (extract_need_from_demand d) cap) in *.
  set (sr := Semantic.get_semantic_score dt st) in *. clearbody i sg sz al sr.
  set (t := Z.min 100 (py_round_div (weighted_x100 i sg sz al + 100 * Semantic.bonus sr) 100)) in *.
  clearbody t.
  set (lbl := option_map label (signal_meta d)) in *.
  set (np := extract_need_from_demand d) in *.
  destruct (determine_tier t np cap lbl) as [tr rs] eqn:Edt.
  destruct (t =? 0)%Z eqn:Ez; injection H as <-; cbn.
  - apply Z.eqb_eq in Ez. subst t. rewrite <- Edt.
    repeat split; try apply determine_tier_zero_one.
  - rewrite <- Edt. repeat split.
Qed.

End ScorerFacts.

(** X1: score_industry is symmetric: swapping the demand and the supply
    industry never changes the score (exact match, substring containment in
    either direction and shared related group are all symmetric tests). *)
Theorem score_industry_symmetric (a b : field) :
  Matcher.score_industry a b = Matcher.score_industry b a.
Proof.
  unfold Matcher.score_industry.
  rewrite (orb_comm (negb (field_truthy a))).
  destruct (negb (field_truthy b) || negb (field_truthy a)); [reflexivity|].
  rewrite String.eqb_sym, (orb_comm (str_in (lower (Matcher.first_of a)) _)).
  rewrite (ScorerFacts.existsb_andb_comm (fun group => existsb _ group)).
  reflexivity.
Qed.

(** X2: score_industry and score_size return exactly 10 when, and only when,
    one of the two fields is missing (falsy); with both fields present they
    never return 10. *)
Theorem missing_field_scores_ten (a b : field) :
  (Matcher.score_industry a b = 10%Z <-> field_truthy a = false \/ field_truthy b = false)
  /\ (Matcher.score_size a b = 10%Z <-> field_truthy a = false \/ field_truthy b = false).
Proof.
  split.
  - unfold Matcher.score_industry.
    destruct (field_truthy a), (field_truthy b); simpl;
      try (split; [intros _; auto | reflexivity]).
    split; [|intros [H|H]; discriminate H].
    MatcherFacts.destruct_ifs; discriminate.
  - unfold Matcher.score_size. cbn zeta.
    destruct (field_truthy a), (field_truthy b); simpl;
      try (split; [intros _; auto | reflexivity]).
    split; [|intros [H|H]; discriminate H].
    MatcherFacts.destruct_ifs; discriminate.
Qed.

(** X3: parse_size never returns a negative number, and returns the default
    50 for every string without a digit. *)
Theorem parse_size_spec (s : string) :
  (0 <= Matcher.parse_size s)%Z
  /\ (forallb (fun c => negb (Matcher.is_digit c)) (list_ascii_of_string s) = true ->
      Matcher.parse_size s = 50%Z).
Proof.
  unfold Matcher.parse_size. split.
  - destruct (String.eqb _ EmptyString); [lia|].
    apply ScorerFacts.digits_value_nonneg_aux. lia.
  - intros H.
    assert (Hf : filter (fun c => Matcher.is_digit c) (list_ascii_of_string s) = []).
    { induction (list_ascii_of_string s) as [|c l IH]; [reflexivity|].
      simpl in H. apply andb_prop in H as [Hc Hl].
      rewrite filter_cons. destruct (Matcher.is_digit c); [discriminate Hc|]. auto. }
    rewrite Hf. reflexivity.
Qed.

(** X4: score_signal returns 5 exactly when the demand signal is empty; with
    a non-empty signal it returns 40, 25 or 10, never 5. *)
Theorem score_signal_five_iff (sg t : string) (i : field) :
  Matcher.score_signal sg t i = 5%Z <-> sg = EmptyString.
Proof.
  unfold Matcher.score_signal. cbn zeta.
  destruct (String.eqb_spec sg EmptyString) as [->|Hne]; [tauto|].
  split; [|intros H; contradiction].
  MatcherFacts.destruct_ifs; discriminate.
Qed.

(** X5: determine_tier is monotone in the score: with the same profiles and
    label, a higher score never gives a lower tier (Open < Good < Strong),
    and the tier reason does not depend on the score. *)
Theorem determine_tier_monotone (s1 s2 : Z) (need : NeedProfile) (cap : CapabilityProfile)
    (lbl : option string) :
  (s1 <= s2)%Z ->
  (Orders.tier_rank (Matcher.determine_tier s1 need cap lbl).1
   <= Orders.tier_rank (Matcher.determine_tier s2 need cap lbl).1)%nat
  /\ (Matcher.determine_tier s1 need cap lbl).2 = (Matcher.determine_tier s2 need cap lbl).2.
Proof.
  intros Hle. unfold Matcher.determine_tier. cbn zeta.
  repeat match goal with
         | |- context [(?a <=? ?b)%Z] => destruct (Z.leb_spec a b)
         end; simpl; split; (reflexivity || lia).
Qed.

(** X6: determine_tier returns Strong exactly when the score is at least 70
    and the two confidences sum to at least 140 (combined confidence at
    least 0.7), and Open exactly when the score is below 30, or below 45
    with a confidence sum below 100. *)
Theorem determine_tier_thresholds (sc : Z) (need : NeedProfile) (cap : CapabilityProfile)
    (lbl : option string) :
  ((Matcher.determine_tier sc need cap lbl).1 = Strong
   <-> (70 <= sc)%Z /\ (140 <= n_confidence need + c_confidence cap)%Z)
  /\ ((Matcher.determine_tier sc need cap lbl).1 = Open
      <-> (sc < 30)%Z \/ ((sc < 45)%Z /\ (n_confidence need + c_confidence cap < 100)%Z)).
Proof.
  unfold Matcher.determine_tier. cbn zeta.
  repeat match goal with
         | |- context [(?a <=? ?b)%Z] => destruct (Z.leb_spec a b)
         end; simpl; split; split; intros; (discriminate || lia || reflexivity || idtac).
Qed.

Module PipelineFacts.
Import Matcher Orders.

Lemma extract_capability_None_iff s :
  extract_capability_from_supply s = None <-> industry s = FList [].
Proof.
  unfold extract_capability_from_supply.
  destruct (industry s) as [x|[|x l]]; cbn [first_or_scalar]; split; congruence.
Qed.

Lemma score_match_None_iff d s : score_match d s = None <-> industry s = FList [].
Proof.
  rewrite <- extract_capability_None_iff. unfold score_match.
  destruct (extract_capability_from_supply s) as [c|]; [|split; reflexivity].
  split; intros H; [|discriminate H]. exfalso. revert H.
  match goal with |- context [determine_tier ?a ?b ?c ?e] => destruct (determine_tier a b c e) end.
  match goal with |- context [if (?t =? 0)%Z then _ else _] => destruct (t =? 0)%Z end;
    intros H; discriminate H.
Qed.

Lemma mapM_None_In {A B} (f : A -> option B) l :
  mapM f l = None <-> exists x, In x l /\ f x = None.
Proof.
  rewrite mapM_None, Exists_exists.
  split; intros (x & Hx & Hf); exists x; split; try exact Hf; by apply list_elem_of_In.
Qed.

Lemma score_row_None min_score d supply :
  score_row min_score d supply = None <-> exists s, In s supply /\ score_match d s = None.
Proof.
  unfold score_row. rewrite <- mapM_None_In.
  destruct (mapM (score_match d) supply); simpl; split; congruence.
Qed.

Lemma scored_pairs_None demand supply min_score :
  scored_pairs demand supply min_score = None
  <-> exists d s, In d demand /\ In s supply /\ score_match d s = None.
Proof.
  unfold scored_pairs.
  transitivity (mapM (fun d => score_row min_score d supply) demand = None).
  { destruct (mapM _ demand); simpl; split; congruence. }
  rewrite mapM_None_In. setoid_rewrite score_row_None. split.
  - intros (d & Hd & s & Hs & H). exists d, s. auto.
  - intros (d & s & Hd & Hs & H). exists d. split; [exact Hd|]. exists s. auto.
Qed.

Lemma scored_pairs_in_inputs demand supply min_score ps m :
  scored_pairs demand supply min_score = Some ps -> In m ps ->
  exists d s, In d demand /\ In s supply /\ score_match d s = Some m
              /\ (min_score <= score m)%Z.
Proof.
  unfold scored_pairs. destruct (mapM _ demand) as [rows|] eqn:E; [|discriminate].
  intros H. injection H as <-. apply mapM_Some_1 in E.
  intros (row & Hrow & Hm)%in_concat.
  destruct (OrchestrationFacts.Forall2_In_r _ _ _ _ E Hrow) as (d & Hd & Hdr).
  unfold score_row in Hdr. destruct (mapM (score_match d) supply) as [row0|] eqn:E0;
    [|discriminate].
  injection Hdr as <-. apply mapM_Some_1 in E0.
  apply list_elem_of_In, list_elem_of_filter in Hm as [Hle Hm].
  apply list_elem_of_In in Hm.
  destruct (OrchestrationFacts.Forall2_In_r _ _ _ _ E0 Hm) as (s & Hs & Hsm).
  exists d, s. repeat split; try assumption. apply Z.leb_le. by apply Is_true_true.
Qed.

Lemma group_insert_fst key m g k :
  In k (map fst (group_insert key m g)) <-> k = key \/ In k (map fst g).
Proof.
  induction g as [|[k0 ms] t IH]; simpl; [naive_solver|].
  destruct (String.eqb_spec k0 key) as [->|Hne]; simpl; [naive_solver|].
  rewrite IH. naive_solver.
Qed.

Lemma group_insert_nodup key m g :
  NoDup (map fst g) -> NoDup (map fst (group_insert key m g)).
Proof.
  induction g as [|[k0 ms] t IH]; simpl; intros Hnd.
  - apply NoDup_singleton.
  - inversion Hnd as [|? ? Hk0 Ht]; subst.
    destruct (String.eqb_spec k0 key) as [->|Hne]; simpl; constructor; auto.
    rewrite list_elem_of_In, group_insert_fst, <- list_elem_of_In.
    intros [->|?]; [apply Hne; reflexivity|contradiction].
Qed.

Lemma group_insert_wf key m g :
  (forall k ms, In (k, ms) g -> ms <> [] /\ forall x, In x ms -> get_supply_key (m_supply x) = k) ->
  get_supply_key (m_supply m) = key ->
  forall k ms, In (k, ms) (group_insert key m g) ->
    ms <> [] /\ forall x, In x ms -> get_supply_key (m_supply x) = k.
Proof.
  intros Hwf Hm. induction g as [|[k0 ms0] t IH]; simpl.
  - intros k ms [Heq|[]]. injection Heq as <- <-. split; [discriminate|].
    intros x [<-|[]]. exact Hm.
  - destruct (String.eqb_spec k0 key) as [->|Hne]; simpl.
    + intros k ms [Heq|Hin].
      * injection Heq as <- <-. destruct (Hwf key ms0 (or_introl eq_refl)) as [Hne Hk].
        split; [destruct ms0; discriminate|].
        intros x [Hx|[<-|[]]]%in_app_or; [by apply Hk|exact Hm].
      * apply Hwf. by right.
    + intros k ms [Heq|Hin].
      * apply Hwf. left. exact Heq.
      * apply IH; [|exact Hin]. intros k' ms' Hin'. apply Hwf. by right.
Qed.

Lemma group_by_supply_wf matches :
  NoDup (map fst (group_by_supply matches))
  /\ forall k ms, In (k, ms) (group_by_supply matches) ->
       ms <> [] /\ forall x, In x ms -> get_supply_key (m_supply x) = k.
Proof.
  unfold group_by_supply.
  assert (Hgen : forall g,
    NoDup (map fst g) ->
    (forall k ms, In (k, ms) g -> ms <> [] /\ forall x, In x ms -> get_supply_key (m_supply x) = k) ->
    NoDup (map fst (fold_left (fun g m => group_insert (get_supply_key (m_supply m)) m g)
                      matches g))
    /\ forall k ms, In (k, ms) (fold_left (fun g m => group_insert (get_supply_key (m_supply m)) m g)
                                  matches g) ->
         ms <> [] /\ forall x, In x ms -> get_supply_key (m_supply x) = k).
  { induction matches as [|m t IH]; simpl; intros g Hnd Hwf; [auto|].
    apply IH; [by apply group_insert_nodup|]. by apply group_insert_wf. }
  apply Hgen; [constructor|]. intros k ms [].
Qed.

Lemma make_aggregate_shape g a :
  make_aggregate g = Some a ->
  agg_matches a = sort_desc score g.2
  /\ (exists t, agg_matches a = best_match a :: t)
  /\ agg_supply a = m_supply (best_match a).
Proof.
  unfold make_aggregate; cbv zeta.
  destruct (sort_desc score g.2) as [|m0 t] eqn:E; [discriminate|].
  intros H. injection H as <-. simpl. split; [first [reflexivity | symmetry; exact E]|]. split; [eauto|reflexivity].
Qed.

Lemma make_aggregate_Some_of_nonempty g : g.2 <> [] -> exists a, make_aggregate g = Some a.
Proof.
  intros Hne. unfold make_aggregate; cbv zeta.
  destruct (sort_desc score g.2) as [|m0 t] eqn:E; [|eauto].
  exfalso. apply Hne. apply Permutation_nil. rewrite <- E. apply OrchestrationFacts.sort_desc_perm.
Qed.

Lemma aggregate_by_supply_not_None matches : aggregate_by_supply matches <> None.
Proof.
  unfold aggregate_by_supply.
  destruct (mapM make_aggregate (group_by_supply matches)) eqn:E; [discriminate|].
  apply mapM_None_In in E as ([k ms] & Hin & Hn).
  destruct (proj2 (group_by_supply_wf matches) k ms Hin) as [Hne _].
  destruct (make_aggregate_Some_of_nonempty (k, ms) Hne) as [a Ha]. congruence.
Qed.

Lemma aggregate_by_supply_Some matches aggs :
  aggregate_by_supply matches = Some aggs ->
  exists aggs0, Forall2 (fun g a => make_aggregate g = Some a) (group_by_supply matches) aggs0
                /\ aggs = sort_desc total_matches aggs0.
Proof.
  unfold aggregate_by_supply.
  destruct (mapM make_aggregate (group_by_supply matches)) as [aggs0|] eqn:E; [|discriminate].
  intros H. injection H as <-. exists aggs0. split; [by apply mapM_Some_1|reflexivity].
Qed.

Lemma Permutation_concat {A} (l l' : list (list A)) :
  Permutation l l' -> Permutation (concat l) (concat l').
Proof.
  induction 1; simpl; try done.
  - by apply Permutation_app_head.
  - rewrite !app_assoc. apply Permutation_app_tail, Permutation_app_comm.
  - by etrans.
Qed.

Lemma aggregates_partition_groups groups aggs0 :
  Forall2 (fun g a => make_aggregate g = Some a) groups aggs0 ->
  Permutation (concat (map agg_matches aggs0)) (concat (map snd groups)).
Proof.
  induction 1 as [|g a groups aggs0 Hga _ IH]; simpl; [done|].
  apply make_aggregate_shape in Hga as [Heq _]. rewrite Heq.
  apply Permutation_app; [apply OrchestrationFacts.sort_desc_perm|exact IH].
Qed.

Lemma aggregates_keys_groups groups aggs0 :
  (forall k ms, In (k, ms) groups ->
     ms <> [] /\ forall x, In x ms -> get_supply_key (m_supply x) = k) ->
  Forall2 (fun g a => make_aggregate g = Some a) groups aggs0 ->
  map (fun a => get_supply_key (agg_supply a)) aggs0 = map fst groups.
Proof.
  intros Hwf HF. induction HF as [|[k ms] a groups aggs0 Hga _ IH]; simpl; [done|].
  f_equal.
  - destruct (make_aggregate_shape _ _ Hga) as (Heq & (t & Ht) & Hs).
    rewrite Hs. apply (proj2 (Hwf k ms (or_introl eq_refl))).
    apply (Permutation_in _ (OrchestrationFacts.sort_desc_perm score ms)).
    simpl in Heq. rewrite <- Heq, Ht. left. reflexivity.
  - apply IH. intros k' ms' Hin. apply Hwf. by right.
Qed.

Lemma list_to_set_size_le (l : list string) :
  stdpp.base.size (list_to_set l : gset string) <= length l.
Proof.
  induction l as [|x l IH]; simpl; [vm_compute; lia|].
  rewrite size_union_alt, size_singleton.
  pose proof (subseteq_size (list_to_set l ∖ {[x]} : gset string) (list_to_set l)
                ltac:(set_solver)). lia.
Qed.

Lemma list_to_set_size_pos (l : list string) :
  l <> [] -> 1 <= stdpp.base.size (list_to_set l : gset string).
Proof.
  destruct l as [|x l]; [congruence|]. intros _. simpl.
  rewrite size_union_alt, size_singleton. lia.
Qed.

Lemma match_records_stats demand supply min_score best r :
  match_records demand supply min_score best = Some r ->
  total_demand (stats r) = Z.of_nat (length demand)
  /\ total_supply (stats r) = Z.of_nat (length supply)
  /\ st_total_matches (stats r) = Z.of_nat (length (demand_matches r))
  /\ unique_demands_matched (stats r)
     = Z.of_nat (stdpp.base.size (list_to_set (map match_key (demand_matches r)) : gset string)).
Proof.
  unfold match_records.
  destruct (scored_pairs demand supply min_score) as [ps|]; [|discriminate]. simpl.
  destruct (aggregate_by_supply _) as [aggs|]; [|discriminate]. simpl.
  intros H. injection H as <-. simpl. repeat split.
Qed.

Lemma sum_Z_bounds (a b : Z) (l : list Z) :
  (forall x, In x l -> (a <= x <= b)%Z) ->
  (a * Z.of_nat (length l) <= sum_Z l <= b * Z.of_nat (length l))%Z.
Proof.
  induction l as [|x l IH]; intros H; unfold sum_Z in *; simpl; [lia|].
  assert (Hx := H x (or_introl eq_refl)).
  assert (Hl := IH (fun y Hy => H y (or_intror Hy))). lia.
Qed.

Lemma py_round_div_between (a b s n : Z) :
  (0 < n)%Z -> (a * n <= s <= b * n)%Z -> (a <= py_round_div s n <= b)%Z.
Proof.
  intros Hn Hs. unfold py_round_div.
  pose proof (Z.div_mod s n ltac:(lia)) as Hdm.
  pose proof (Z.mod_pos_bound s n Hn) as Hb.
  set (q := (s / n)%Z) in *. set (r := (s mod n)%Z) in *.
  assert (a <= q)%Z by nia. assert (q <= b)%Z by nia.
  assert (q = b -> r = 0)%Z by (intros ->; nia).
  destruct (Z.ltb_spec (2 * r) n); [lia|].
  destruct (Z.ltb_spec n (2 * r)); [lia|].
  destruct (Z.even q); lia.
Qed.

Lemma best_aux_id seen l :
  NoDup (map match_key l) -> (forall x, In x l -> match_key x ∉ seen) -> best_aux seen l = l.
Proof.
  revert seen. induction l as [|x l IH]; intros seen Hnd Hs; simpl; [done|].
  inversion Hnd as [|? ? Hx Hl]; subst.
  case_decide as Hin; [exfalso; exact (Hs x (or_introl eq_refl) Hin)|].
  f_equal. apply IH; [exact Hl|]. intros y Hy.
  rewrite not_elem_of_union, not_elem_of_singleton. split; [|exact (Hs y (or_intror Hy))].
  intros Heq. apply Hx. rewrite <- Heq. by apply list_elem_of_In, in_map.
Qed.

Lemma best_aux_sublist seen l : sublist (best_aux seen l) l.
Proof.
  revert seen. induction l as [|x l IH]; intros seen; simpl; [constructor|].
  case_decide; [by apply sublist_cons|]. by apply sublist_skip.
Qed.

End PipelineFacts.

(** X8: score_match fails (the IndexError of industry_raw[0]) exactly when
    the supply industry is an empty list; for every other pair it returns a
    Match. *)
Theorem score_match_None_iff_empty_industry (d s : NormalizedRecord) :
  Matcher.score_match d s = None <-> industry s = FList [].
Proof. apply PipelineFacts.score_match_None_iff. Qed.

(** X9: match_records fails exactly when the demand list is non-empty and
    some supply record has an empty-list industry; otherwise it returns a
    result. *)
Theorem match_records_None_iff (demand supply : list NormalizedRecord) (min_score : Z)
    (best_match_only : bool) :
  Matcher.match_records demand supply min_score best_match_only = None
  <-> demand <> [] /\ exists s, In s supply /\ industry s = FList [].
Proof.
  unfold Matcher.match_records.
  destruct (Matcher.scored_pairs demand supply min_score) as [ps|] eqn:E; simpl.
  - destruct (Matcher.aggregate_by_supply _) as [aggs|] eqn:Ha.
    + simpl. split; [discriminate|]. intros [Hne (s & Hs & Hi)].
      destruct demand as [|d ds]; [contradiction|].
      assert (Hn : Matcher.scored_pairs (d :: ds) supply min_score = None).
      { apply PipelineFacts.scored_pairs_None. exists d, s.
        split; [left; reflexivity|]. split; [exact Hs|].
        by apply PipelineFacts.score_match_None_iff. }
      congruence.
    + exfalso. exact (PipelineFacts.aggregate_by_supply_not_None _ Ha).
  - split; [intros _|intros _; reflexivity].
    apply PipelineFacts.scored_pairs_None in E as (d & s & Hd & Hs & Hn).
    split; [destruct demand; [contradiction|discriminate]|].
    exists s. split; [exact Hs|]. exact (proj1 (PipelineFacts.score_match_None_iff d s) Hn).
Qed.

(** X10: Every Match returned by match_records, in demand_matches or in a
    supply aggregate, pairs a demand record of the input with a supply
    record of the input, is the Match score_match computes for that pair,
    and has a score of at least min_score. *)
Theorem match_records_matches_from_inputs (demand supply : list NormalizedRecord)
    (min_score : Z) (best_match_only : bool) (r : Matcher.MatchingResult) :
  Matcher.match_records demand supply min_score best_match_only = Some r ->
  forall m, (In m (Matcher.demand_matches r)
             \/ exists a, In a (Matcher.supply_aggregates r) /\ In m (Matcher.agg_matches a)) ->
  In (m_demand m) demand /\ In (m_supply m) supply
  /\ Matcher.score_match (m_demand m) (m_supply m) = Some m
  /\ (min_score <= score m)%Z.
Proof.
  intros H m Hm.
  destruct (OrchestrationFacts.match_records_Some _ _ _ _ _ H) as (ps & Hps & _ & Hagg & _).
  assert (Hin : In m (Matcher.demand_matches r)).
  { destruct Hm as [Hm|(a & Ha & Hm)]; [exact Hm|].
    exact (OrchestrationFacts.aggregate_by_supply_member _ _ _ _ Hagg Ha Hm). }
  pose proof (OrchestrationFacts.demand_matches_sub _ _ _ _ _ _ m H Hps Hin) as Hps_in.
  destruct (PipelineFacts.scored_pairs_in_inputs _ _ _ _ _ Hps Hps_in)
    as (d & s & Hd & Hs & Hsm & Hmin).
  destruct (ScorerFacts.score_match_shape _ _ _ Hsm) as (-> & -> & _).
  auto.
Qed.

(** X11: The supply aggregates returned by match_records partition
    demand_matches: their match lists, concatenated, are a permutation of
    demand_matches, and no two aggregates have the same supply key. *)
Theorem match_records_aggregates_partition (demand supply : list NormalizedRecord)
    (min_score : Z) (best_match_only : bool) (r : Matcher.MatchingResult) :
  Matcher.match_records demand supply min_score best_match_only = Some r ->
  Permutation (concat (map Matcher.agg_matches (Matcher.supply_aggregates r)))
    (Matcher.demand_matches r)
  /\ NoDup (map (fun a => Matcher.get_supply_key (Matcher.agg_supply a))
              (Matcher.supply_aggregates r)).
Proof.
  intros H.
  destruct (OrchestrationFacts.match_records_Some _ _ _ _ _ H) as (ps & _ & _ & Hagg & _).
  destruct (PipelineFacts.aggregate_by_supply_Some _ _ Hagg) as (aggs0 & HF & ->).
  pose proof (OrchestrationFacts.sort_desc_perm Matcher.total_matches aggs0) as Hp.
  destruct (PipelineFacts.group_by_supply_wf (Matcher.demand_matches r)) as [Hnd Hwf].
  split.
  - etrans; [apply PipelineFacts.Permutation_concat, Permutation_map, Hp|].
    etrans; [apply (PipelineFacts.aggregates_partition_groups _ _ HF)|].
    apply OrchestrationFacts.group_by_supply_perm.
  - rewrite (Permutation_map (fun a => Matcher.get_supply_key (Matcher.agg_supply a)) Hp).
    rewrite (PipelineFacts.aggregates_keys_groups _ _ Hwf HF). exact Hnd.
Qed.

(** X12: In every supply aggregate returned by match_records, best_match is
    the first of a non-empty match list sorted by non-increasing score,
    agg_supply is its supply record, every match of the group has the
    group's supply key and a score at most best_match's, and total_matches
    is between 1 and the number of matches of the group. *)
Theorem match_records_aggregate_shape (demand supply : list NormalizedRecord)
    (min_score : Z) (best_match_only : bool) (r : Matcher.MatchingResult)
    (a : Matcher.Aggregate) :
  Matcher.match_records demand supply min_score best_match_only = Some r ->
  In a (Matcher.supply_aggregates r) ->
  (exists t, Matcher.agg_matches a = Matcher.best_match a :: t)
  /\ Matcher.agg_supply a = m_supply (Matcher.best_match a)
  /\ (forall m, In m (Matcher.agg_matches a) ->
        Matcher.get_supply_key (m_supply m) = Matcher.get_supply_key (Matcher.agg_supply a)
        /\ (score m <= score (Matcher.best_match a))%Z)
  /\ Sorted (fun x y => (score y <= score x)%Z) (Matcher.agg_matches a)
  /\ (1 <= Matcher.total_matches a <= Z.of_nat (length (Matcher.agg_matches a)))%Z.
Proof.
  intros H Ha.
  destruct (OrchestrationFacts.match_records_Some _ _ _ _ _ H) as (ps & _ & _ & Hagg & _).
  destruct (OrchestrationFacts.aggregate_by_supply_in _ _ _ Hagg Ha) as (g & Hg & Hga).
  destruct (PipelineFacts.make_aggregate_shape _ _ Hga) as (Heq & (t & Ht) & Hs).
  destruct (OrchestrationFacts.make_aggregate_Some _ _ Hga) as [_ Htot].
  destruct g as [k ms].
  destruct (proj2 (PipelineFacts.group_by_supply_wf (Matcher.demand_matches r)) k ms Hg)
    as [_ Hkey].
  assert (Hmem : forall m, In m (Matcher.agg_matches a) -> In m ms).
  { intros m Hm. rewrite Heq in Hm.
    exact (Permutation_in _ (OrchestrationFacts.sort_desc_perm score ms) Hm). }
  assert (Hsorted : Sorted (fun x y => (score y <= score x)%Z) (Matcher.agg_matches a)).
  { rewrite Heq. apply OrchestrationFacts.sort_desc_sorted. }
  split; [eauto|]. split; [exact Hs|]. split; [|split; [exact Hsorted|]].
  - intros m Hm. split.
    + rewrite Hs, (Hkey (Matcher.best_match a)), (Hkey m); [reflexivity| |];
        apply Hmem; [exact Hm|rewrite Ht; left; reflexivity].
    + rewrite Ht in Hm, Hsorted. destruct Hm as [<-|Hm]; [lia|].
      apply Sorted_StronglySorted in Hsorted; [|intros x y z; lia].
      apply StronglySorted_inv in Hsorted as [_ Hall].
      rewrite List.Forall_forall in Hall. exact (Hall m Hm).
  - rewrite Htot. split.
    + pose proof (PipelineFacts.list_to_set_size_pos (map Matcher.match_key (Matcher.agg_matches a))
                    ltac:(rewrite Ht; discriminate)). lia.
    + pose proof (PipelineFacts.list_to_set_size_le (map Matcher.match_key (Matcher.agg_matches a))).
      rewrite length_map in *. lia.
Qed.

(** X13: The stats of match_records count the input demand and supply
    records and the returned demand_matches; unique_demands_matched never
    exceeds total_matches, and equals it when best_match_only is set. *)
Theorem match_records_stats_counts (demand supply : list NormalizedRecord)
    (min_score : Z) (best_match_only : bool) (r : Matcher.MatchingResult) :
  Matcher.match_records demand supply min_score best_match_only = Some r ->
  Matcher.total_demand (Matcher.stats r) = Z.of_nat (length demand)
  /\ Matcher.total_supply (Matcher.stats r) = Z.of_nat (length supply)
  /\ Matcher.st_total_matches (Matcher.stats r) = Z.of_nat (length (Matcher.demand_matches r))
  /\ (Matcher.unique_demands_matched (Matcher.stats r)
      <= Matcher.st_total_matches (Matcher.stats r))%Z
  /\ (best_match_only = true ->
      Matcher.unique_demands_matched (Matcher.stats r)
      = Matcher.st_total_matches (Matcher.stats r)).
Proof.
  intros H.
  destruct (PipelineFacts.match_records_stats _ _ _ _ _ H) as (H1 & H2 & H3 & H4).
  rewrite H1, H2, H3, H4. split; [reflexivity|]. split; [reflexivity|]. split; [reflexivity|].
  split.
  - pose proof (PipelineFacts.list_to_set_size_le (map Matcher.match_key (Matcher.demand_matches r))).
    rewrite length_map in *. lia.
  - intros ->.
    destruct (OrchestrationFacts.match_records_Some _ _ _ _ _ H) as (ps & _ & Hdm & _).
    rewrite size_list_to_set, length_map; [reflexivity|].
    rewrite Hdm. apply OrchestrationFacts.best_aux_nodup.
Qed.

(** X14: When at least one pair passes the min_score threshold, the
    avg_score of match_records lies between 6 and 100. *)
Theorem match_records_avg_score_range (demand supply : list NormalizedRecord)
    (min_score : Z) (best_match_only : bool) (r : Matcher.MatchingResult) (ps : list Match) :
  Matcher.match_records demand supply min_score best_match_only = Some r ->
  Matcher.scored_pairs demand supply min_score = Some ps ->
  ps <> [] ->
  (6 <= Matcher.avg_score (Matcher.stats r) <= 100)%Z.
Proof.
  intros H Hps Hne.
  destruct (OrchestrationFacts.match_records_Some _ _ _ _ _ H) as (ps' & Hps' & _ & _ & Havg).
  rewrite Hps in Hps'. injection Hps' as <-. rewrite Havg.
  pose proof (OrchestrationFacts.sort_desc_perm score ps) as Hp.
  assert (Hb : forall x, In x (map score (Matcher.sort_desc score ps)) -> (6 <= x <= 100)%Z).
  { intros x (m & <- & Hm)%in_map_iff.
    apply (Permutation_in _ Hp) in Hm.
    destruct (OrchestrationFacts.scored_pairs_in _ _ _ _ _ Hps Hm) as (d & s & Hs & _).
    exact (proj1 (MatcherFacts.score_match_facts d s m Hs)). }
  destruct (map score (Matcher.sort_desc score ps)) as [|y l] eqn:E.
  - exfalso. apply Hne. apply Permutation_nil.
    apply (f_equal (@length Z)) in E. rewrite length_map in E.
    destruct (Matcher.sort_desc score ps) eqn:E2; [|discriminate E].
    exact Hp.
  - cbv beta iota zeta. apply PipelineFacts.py_round_div_between; [simpl; lia|].
    apply (PipelineFacts.sum_Z_bounds 6 100 (y :: l) Hb).
Qed.

(** X15: get_best_match_per_demand is idempotent: applying it to its own
    output changes nothing. *)
Theorem get_best_match_per_demand_idempotent (matches : list Match) :
  Matcher.get_best_match_per_demand (Matcher.get_best_match_per_demand matches)
  = Matcher.get_best_match_per_demand matches.
Proof.
  unfold Matcher.get_best_match_per_demand.
  apply PipelineFacts.best_aux_id; [apply OrchestrationFacts.best_aux_nodup|].
  intros x _. apply not_elem_of_empty.
Qed.

(** X16: The demand_matches of match_records with best_match_only set form a
    sublist (same order) of the demand_matches without it, for the same
    inputs. *)
Theorem match_records_best_sublist (demand supply : list NormalizedRecord) (min_score : Z)
    (r1 r2 : Matcher.MatchingResult) :
  Matcher.match_records demand supply min_score true = Some r1 ->
  Matcher.match_records demand supply min_score false = Some r2 ->
  sublist (Matcher.demand_matches r1) (Matcher.demand_matches r2).
Proof.
  intros H1 H2.
  destruct (OrchestrationFacts.match_records_Some _ _ _ _ _ H1) as (ps1 & Hps1 & Hdm1 & _).
  destruct (OrchestrationFacts.match_records_Some _ _ _ _ _ H2) as (ps2 & Hps2 & Hdm2 & _).
  rewrite Hps1 in Hps2. injection Hps2 as <-.
  rewrite Hdm1, Hdm2. apply PipelineFacts.best_aux_sublist.
Qed.

Module CountFacts.
Import Matcher.

Lemma filter_keep_all (min_score : Z) (l : list Match) :
  (forall m, In m l -> (min_score <= score m)%Z) ->
  filter (fun m => (min_score <=? score m)%Z) l = l.
Proof.
  induction l as [|x l IH]; intros H; [reflexivity|].
  rewrite filter_cons, decide_True.
  - f_equal. apply IH. intros m Hm. apply H. by right.
  - apply Is_true_true, Z.leb_le, H. by left.
Qed.

Lemma score_row_length min_score d supply row :
  (min_score <= 6)%Z -> score_row min_score d supply = Some row -> length row = length supply.
Proof.
  intros Hmin. unfold score_row.
  destruct (mapM (score_match d) supply) as [row0|] eqn:E; [|discriminate].
  intros H. injection H as <-. apply mapM_Some_1 in E.
  rewrite filter_keep_all.
  - symmetry. exact (Forall2_length _ _ _ E).
  - intros m Hm. destruct (OrchestrationFacts.Forall2_In_r _ _ _ _ E Hm) as (s & _ & Hs).
    pose proof (proj1 (MatcherFacts.score_match_facts d s m Hs)). lia.
Qed.

Lemma concat_rows_length min_score demand supply rows :
  (min_score <= 6)%Z ->
  Forall2 (fun d row => score_row min_score d supply = Some row) demand rows ->
  length (concat rows) = length demand * length supply.
Proof.
  intros Hmin. induction 1 as [|d row demand rows Hr _ IH]; [reflexivity|].
  simpl. rewrite length_app, IH, (score_row_length _ _ _ _ Hmin Hr). reflexivity.
Qed.

End CountFacts.

(** X17: With best_match_only off and a min_score of at most 6,
    match_records keeps every pair: demand_matches has one Match per demand
    and supply record pair. *)
Theorem match_records_all_pairs_kept (demand supply : list NormalizedRecord) (min_score : Z)
    (r : Matcher.MatchingResult) :
  Matcher.match_records demand supply min_score false = Some r ->
  (min_score <= 6)%Z ->
  length (Matcher.demand_matches r) = length demand * length supply.
Proof.
  intros H Hmin.
  destruct (OrchestrationFacts.match_records_Some _ _ _ _ _ H) as (ps & Hps & Hdm & _).
  rewrite Hdm, (Permutation_length (OrchestrationFacts.sort_desc_perm score ps)).
  unfold Matcher.scored_pairs in Hps.
  destruct (mapM _ demand) as [rows|] eqn:E; [|discriminate].
  injection Hps as <-. apply mapM_Some_1 in E.
  exact (CountFacts.concat_rows_length _ _ _ _ Hmin E).
Qed.

Module FilterFacts.
Import Matcher MatcherFilter.

Lemma keep_spec m x : Is_true (keep m x) <-> (m <= score x)%Z.
Proof. unfold keep. rewrite Is_true_true. apply Z.leb_le. Qed.

Lemma keep_keep a b (l : list Match) :
  filter (keep b) (filter (keep a) l) = filter (keep (Z.max a b)) l.
Proof.
  induction l as [|x l IH]; [reflexivity|].
  rewrite !filter_cons.
  destruct (decide (Is_true (keep a x))) as [Ha|Ha];
    destruct (decide (Is_true (keep (Z.max a b) x))) as [Hm|Hm];
    rewrite ?filter_cons, ?keep_spec in *; rewrite ?keep_spec in *.
  - rewrite decide_True by (apply keep_spec; lia). by f_equal.
  - rewrite decide_False by (rewrite keep_spec; lia). exact IH.
  - lia.
  - exact IH.
Qed.

Lemma omap_cons' {A B} (f : A -> option B) (x : A) (l : list A) :
  omap f (x :: l) = match f x with Some y => y :: omap f l | None => omap f l end.
Proof. reflexivity. Qed.

Lemma filter_aggregate_ext b c x y :
  agg_supply y = agg_supply x ->
  filter (keep b) (agg_matches y) = filter (keep c) (agg_matches x) ->
  filter_aggregate b y = filter_aggregate c x.
Proof.
  intros Hs Hf. unfold filter_aggregate. rewrite Hf, Hs.
  destruct (filter (keep c) (agg_matches x)); reflexivity.
Qed.

Lemma filter_aggregates_compose a b aggs :
  filter_aggregates b (filter_aggregates a aggs) = filter_aggregates (Z.max a b) aggs.
Proof.
  unfold filter_aggregates.
  induction aggs as [|x aggs IH]; [reflexivity|]. rewrite !omap_cons'.
  destruct (filter_aggregate a x) as [y|] eqn:Ex; rewrite ?omap_cons'.
  - rewrite IH. f_equal.
    rewrite (filter_aggregate_ext b (Z.max a b) x y); [reflexivity| |].
    + unfold filter_aggregate in Ex.
      destruct (filter (keep a) (agg_matches x)); [discriminate|].
      injection Ex as <-. reflexivity.
    + rewrite <- keep_keep. unfold filter_aggregate in Ex.
      destruct (filter (keep a) (agg_matches x)); [discriminate|].
      injection Ex as <-. reflexivity.
  - rewrite IH. unfold filter_aggregate in Ex |- *. rewrite <- keep_keep.
    destruct (filter (keep a) (agg_matches x)); [reflexivity|discriminate].
Qed.

Lemma filter_aggregates_in min_score aggs a :
  In a (filter_aggregates min_score aggs) ->
  exists a0, In a0 aggs /\ filter_aggregate min_score a0 = Some a.
Proof.
  unfold filter_aggregates. intros Ha.
  apply list_elem_of_In, list_elem_of_omap in Ha as (a0 & Ha0 & Hf).
  exists a0. split; [by apply list_elem_of_In|exact Hf].
Qed.

Lemma filter_aggregates_all min_score aggs :
  (forall a, In a aggs ->
     (exists t, agg_matches a = best_match a :: t)
     /\ forall m, In m (agg_matches a) -> (min_score <= score m)%Z) ->
  filter_aggregates min_score aggs
  = map (fun a => {| agg_supply := agg_supply a; agg_matches := agg_matches a;
                     best_match := best_match a;
                     total_matches := Z.of_nat (length (agg_matches a)) |}) aggs.
Proof.
  unfold filter_aggregates.
  induction aggs as [|x aggs IH]; intros H; [reflexivity|]. rewrite omap_cons'. simpl.
  destruct (H x (or_introl eq_refl)) as [(t & Ht) Hs].
  unfold filter_aggregate, keep. rewrite CountFacts.filter_keep_all by exact Hs.
  rewrite Ht. simpl. rewrite <- Ht. f_equal. apply IH. intros a Ha. apply H. by right.
Qed.

Lemma match_records_scores_ge6 demand supply min_score best r m :
  match_records demand supply min_score best = Some r ->
  (In m (demand_matches r)
   \/ exists a, In a (supply_aggregates r) /\ In m (agg_matches a)) ->
  (6 <= score m)%Z.
Proof.
  intros H Hm.
  destruct (OrchestrationFacts.match_records_Some _ _ _ _ _ H) as (ps & Hps & _ & Hagg & _).
  assert (Hin : In m (demand_matches r)).
  { destruct Hm as [Hm|(a & Ha & Hm)]; [exact Hm|].
    exact (OrchestrationFacts.aggregate_by_supply_member _ _ _ _ Hagg Ha Hm). }
  pose proof (OrchestrationFacts.demand_matches_sub _ _ _ _ _ _ m H Hps Hin) as Hp.
  destruct (OrchestrationFacts.scored_pairs_in _ _ _ _ _ Hps Hp) as (d & s & Hs & _).
  exact (proj1 (proj1 (MatcherFacts.score_match_facts d s m Hs))).
Qed.

Lemma match_records_aggregate_head demand supply min_score best r a :
  match_records demand supply min_score best = Some r ->
  In a (supply_aggregates r) -> exists t, agg_matches a = best_match a :: t.
Proof.
  intros H Ha.
  destruct (OrchestrationFacts.match_records_Some _ _ _ _ _ H) as (ps & _ & _ & Hagg & _).
  destruct (OrchestrationFacts.aggregate_by_supply_in _ _ _ Hagg Ha) as (g & _ & Hga).
  exact (proj1 (proj2 (PipelineFacts.make_aggregate_shape _ _ Hga))).
Qed.

End FilterFacts.

(** X18: filter_by_score composes by the larger threshold: filtering at a
    and then at b gives the same result as filtering once at max(a, b). *)
Theorem filter_by_score_compose (company_name : NormalizedRecord -> string)
    (r : Matcher.MatchingResult) (a b : Z) :
  MatcherFilter.filter_by_score company_name (MatcherFilter.filter_by_score company_name r a) b
  = MatcherFilter.filter_by_score company_name r (Z.max a b).
Proof.
  unfold MatcherFilter.filter_by_score at 1 2. cbn [Matcher.demand_matches
    Matcher.supply_aggregates Matcher.stats Matcher.total_demand Matcher.total_supply].
  rewrite FilterFacts.keep_keep, FilterFacts.filter_aggregates_compose. reflexivity.
Qed.

(** X19: Every aggregate returned by filter_by_score comes from an aggregate
    of the input with the same supply record, keeps those of its matches
    scoring at least min_score, is non-empty with best_match as its first
    match, and has total_matches equal to its raw number of matches. *)
Theorem filter_by_score_aggregates (company_name : NormalizedRecord -> string)
    (r : Matcher.MatchingResult) (min_score : Z) (a : Matcher.Aggregate) :
  In a (Matcher.supply_aggregates (MatcherFilter.filter_by_score company_name r min_score)) ->
  exists a0, In a0 (Matcher.supply_aggregates r)
  /\ Matcher.agg_supply a = Matcher.agg_supply a0
  /\ Matcher.agg_matches a = filter (MatcherFilter.keep min_score) (Matcher.agg_matches a0)
  /\ (exists t, Matcher.agg_matches a = Matcher.best_match a :: t)
  /\ Matcher.total_matches a = Z.of_nat (length (Matcher.agg_matches a)).
Proof.
  cbn [MatcherFilter.filter_by_score Matcher.supply_aggregates]. intros Ha.
  destruct (FilterFacts.filter_aggregates_in _ _ _ Ha) as (a0 & Ha0 & Hf).
  exists a0. split; [exact Ha0|].
  unfold MatcherFilter.filter_aggregate in Hf.
  destruct (filter (MatcherFilter.keep min_score) (Matcher.agg_matches a0)) as [|m0 t] eqn:E;
    [discriminate|].
  injection Hf as <-. cbn. repeat split; eauto.
Qed.

(** X20: Applied to a result of match_records with a threshold of at most 6,
    filter_by_score keeps every demand match and every match of every
    aggregate, but total_matches becomes the raw number of matches of each
    aggregate. *)
Theorem filter_by_score_noop_threshold (company_name : NormalizedRecord -> string)
    (demand supply : list NormalizedRecord) (min0 : Z) (best_match_only : bool)
    (r : Matcher.MatchingResult) (min_score : Z) :
  Matcher.match_records demand supply min0 best_match_only = Some r ->
  (min_score <= 6)%Z ->
  Matcher.demand_matches (MatcherFilter.filter_by_score company_name r min_score)
  = Matcher.demand_matches r
  /\ map Matcher.agg_matches
       (Matcher.supply_aggregates (MatcherFilter.filter_by_score company_name r min_score))
     = map Matcher.agg_matches (Matcher.supply_aggregates r)
  /\ Forall (fun a => Matcher.total_matches a = Z.of_nat (length (Matcher.agg_matches a)))
       (Matcher.supply_aggregates (MatcherFilter.filter_by_score company_name r min_score)).
Proof.
  intros H Hmin. cbn [MatcherFilter.filter_by_score Matcher.demand_matches
                       Matcher.supply_aggregates].
  unfold MatcherFilter.keep at 1.
  split.
  { apply CountFacts.filter_keep_all. intros m Hm.
    pose proof (FilterFacts.match_records_scores_ge6 _ _ _ _ _ m H (or_introl Hm)). lia. }
  rewrite (FilterFacts.filter_aggregates_all min_score (Matcher.supply_aggregates r)).
  - rewrite map_map. split.
    + apply map_ext. reflexivity.
    + apply List.Forall_forall. intros a (a0 & <- & _)%in_map_iff. reflexivity.
  - intros a Ha. split; [exact (FilterFacts.match_records_aggregate_head _ _ _ _ _ _ H Ha)|].
    intros m Hm. pose proof (FilterFacts.match_records_scores_ge6 _ _ _ _ _ m H
                               (or_intror (ex_intro _ a (conj Ha Hm)))). lia.
Qed.


(* ================================================================== *)
(** * Need and capability profiles *)

(** X21: extract_need_from_demand always returns a category that has a label
    in need_labels, with a confidence between 0.30 and 0.90. *)
Theorem extract_need_profile_range (d : NormalizedRecord) :
  In (n_category (Matcher.extract_need_from_demand d)) (map fst Matcher.need_labels)
  /\ (30 <= n_confidence (Matcher.extract_need_from_demand d) <= 90)%Z.
Proof.
  unfold Matcher.extract_need_from_demand. cbv zeta.
  MatcherFacts.destruct_ifs; cbn; split; try lia; tauto.
Qed.

(** X22: When extract_capability_from_supply returns a profile, its category
    has a label in cap_labels and is never 'general', and its confidence is
    between 0.30 and 0.95. *)
Theorem extract_capability_profile_range (s : NormalizedRecord) (cap : CapabilityProfile) :
  Matcher.extract_capability_from_supply s = Some cap ->
  In (c_category cap) (map fst Matcher.cap_labels)
  /\ c_category cap <> "general"
  /\ (30 <= c_confidence cap <= 95)%Z.
Proof.
  unfold Matcher.extract_capability_from_supply. cbv zeta.
  destruct (Matcher.first_or_scalar (industry s)); [|discriminate].
  intros H. injection H as <-.
  MatcherFacts.destruct_ifs; cbn; (split; [tauto|split; [discriminate|lia]]).
Qed.


(* ================================================================== *)
(** * Further properties of semantic_expansion.py *)

Module TextFacts.

Lemma lower_char_idem c : lower_char (lower_char c) = lower_char c.
Proof. destruct c as [[] [] [] [] [] [] [] []]; reflexivity. Qed.

Lemma lower_idem s : lower (lower s) = lower s.
Proof. induction s as [|c s IH]; cbn; [reflexivity|]. by rewrite lower_char_idem, IH. Qed.

Lemma lower_chars s c : In c (list_ascii_of_string (lower s)) -> lower_char c = c.
Proof.
  induction s as [|c0 s IH]; cbn; [done|].
  intros [<-|H]; [apply lower_char_idem|auto].
Qed.

Definition tok_char (c : ascii) : Prop := is_word_char c = true /\ lower_char c = c.

Lemma strip_punct_chars s c :
  In c (list_ascii_of_string (Semantic.strip_punct s)) -> is_space_char c = false -> tok_char c.
Proof.
  unfold Semantic.strip_punct. rewrite list_ascii_of_string_of_list_ascii.
  intros (c0 & <- & Hin)%in_map_iff Hsp.
  destruct (is_word_char c0) eqn:Ew; cbn in *.
  - split; [exact Ew|exact (lower_chars s c0 Hin)].
  - destruct (is_space_char c0) eqn:Es; cbn in Hsp; [congruence|]. discriminate Hsp.
Qed.

Lemma split_ws_aux_chars (P : ascii -> Prop) cur s t :
  Forall P (list_ascii_of_string cur) ->
  (forall c, In c (list_ascii_of_string s) -> is_space_char c = false -> P c) ->
  In t (split_ws_aux cur s) -> Forall P (list_ascii_of_string t).
Proof.
  revert cur. induction s as [|c s IH]; intros cur Hcur Hs Ht; cbn in Ht.
  - destruct (String.eqb cur EmptyString); [done|].
    destruct Ht as [<-|[]]. exact Hcur.
  - destruct (is_space_char c) eqn:Esp.
    + apply in_app_or in Ht as [Ht|Ht].
      * destruct (String.eqb cur EmptyString); [done|]. destruct Ht as [<-|[]]. exact Hcur.
      * apply (IH EmptyString); [constructor| |exact Ht].
        intros c' Hc'. apply Hs. by right.
    + apply (IH (cur ++ String c EmptyString)); [| |exact Ht].
      * rewrite MatcherFacts.list_ascii_of_string_app. apply Forall_app. split; [exact Hcur|].
        constructor; [|constructor]. apply Hs; [by left|exact Esp].
      * intros c' Hc'. apply Hs. by right.
Qed.

End TextFacts.

(** X23: Every token returned by extract_tokens has at least 3 characters,
    all of them lower-case word characters (no whitespace, no punctuation,
    no upper case). *)
Theorem extract_tokens_shape (text t : string) :
  In t (Semantic.extract_tokens text) ->
  (3 <= String.length t)%nat
  /\ forall c, In c (list_ascii_of_string t) -> is_word_char c = true /\ lower_char c = c.
Proof.
  unfold Semantic.extract_tokens. destruct (String.eqb text EmptyString); [done|].
  intros Ht. apply list_elem_of_In, list_elem_of_filter in Ht as [Hl Ht].
  apply Is_true_true, Nat.ltb_lt in Hl. split; [lia|].
  apply list_elem_of_In in Ht. intros c Hc.
  refine (proj1 (List.Forall_forall _ _)
            (TextFacts.split_ws_aux_chars TextFacts.tok_char EmptyString _ t
               (List.Forall_nil _) _ Ht) c Hc).
  apply TextFacts.strip_punct_chars.
Qed.

Module OverlapFacts.
Import Semantic.

Lemma overlap_filter (a b : gset string) :
  filter (fun t => t ∈ b) a = a ∩ b.
Proof. apply set_eq. intros x. rewrite elem_of_filter, elem_of_intersection. tauto. Qed.

Lemma overlap_count_empty (a b : gset string) :
  a = ∅ \/ b = ∅ -> overlapCount (compute_semantic_overlap a b) = 0%nat.
Proof.
  intros H. unfold compute_semantic_overlap. cbn [overlapCount].
  rewrite overlap_filter. change (length (elements (a ∩ b))) with (stdpp.base.size (a ∩ b)).
  assert (E : a ∩ b = ∅) by (destruct H as [->| ->]; set_solver).
  rewrite E. apply size_empty.
Qed.

Lemma expanded_empty_text sd :
  expanded (expand_semantic_signals (extract_tokens EmptyString)
              {| ctx_side := sd; ctx_text := EmptyString |}) = ∅.
Proof. destruct sd; vm_compute; reflexivity. Qed.

End OverlapFacts.

(** X24: compute_semantic_overlap counts the tokens common to both sets, so
    the count is symmetric in its arguments, and matchedTokens lists each
    common token exactly once. *)
Theorem compute_semantic_overlap_spec (a b : gset string) :
  Semantic.overlapCount (Semantic.compute_semantic_overlap a b) = stdpp.base.size (a ∩ b)
  /\ Semantic.overlapCount (Semantic.compute_semantic_overlap a b)
     = Semantic.overlapCount (Semantic.compute_semantic_overlap b a)
  /\ NoDup (Semantic.matchedTokens (Semantic.compute_semantic_overlap a b))
  /\ (forall t, t ∈ Semantic.matchedTokens (Semantic.compute_semantic_overlap a b)
                <-> t ∈ a /\ t ∈ b).
Proof.
  unfold Semantic.compute_semantic_overlap. cbn [Semantic.overlapCount Semantic.matchedTokens].
  rewrite !OverlapFacts.overlap_filter.
  split; [reflexivity|]. split; [by rewrite (comm_L (∩))|]. split.
  - apply NoDup_elements.
  - intros t. rewrite elem_of_elements. apply elem_of_intersection.
Qed.

(** X25: calculate_semantic_bonus is monotone in the overlap count, and is 0
    exactly when the count is 0. *)
Theorem calculate_semantic_bonus_monotone (n m : nat) :
  (n <= m)%nat ->
  (Semantic.calculate_semantic_bonus n <= Semantic.calculate_semantic_bonus m)%Z
  /\ (Semantic.calculate_semantic_bonus n = 0%Z <-> n = 0%nat).
Proof.
  intros H. unfold Semantic.calculate_semantic_bonus.
  destruct (Nat.leb_spec 5 n), (Nat.leb_spec 5 m), (Nat.leb_spec 3 n), (Nat.leb_spec 3 m),
    (Nat.leb_spec 1 n), (Nat.leb_spec 1 m); split; try lia; split; intros; lia.
Qed.

(** X26: resolve_ambiguous_term returns 'need' exactly on the demand side,
    for engineering/engineer/engineers, sales, marketing or growth (case-
    insensitive), when the lower-cased text matches the hiring-context
    pattern. *)
Theorem resolve_ambiguous_term_need_iff (term : string) (ctx : Semantic.SemanticContext) :
  Semantic.resolve_ambiguous_term term ctx = Some Semantic.Need <->
  Semantic.ctx_side ctx = Semantic.Demand
  /\ (lower term = "engineering" \/ lower term = "engineer" \/ lower term = "engineers"
      \/ lower term = "sales" \/ lower term = "marketing" \/ lower term = "growth")
  /\ re_search Semantic.hiring_context_re (lower (Semantic.ctx_text ctx)) = true.
Proof.
  unfold Semantic.resolve_ambiguous_term.
  destruct ctx as [sd text]; cbn [Semantic.ctx_side Semantic.ctx_text existsb].
  generalize (re_search Semantic.hiring_context_re (lower text)) as h.
  generalize (re_search Semantic.recruiting_context_re (lower text)) as rc.
  generalize (lower term) as lt. intros lt rc h.
  destruct (String.eqb_spec lt "engineering") as [->|];
  [|destruct (String.eqb_spec lt "engineer") as [->|];
  [|destruct (String.eqb_spec lt "engineers") as [->|];
  [|destruct (String.eqb_spec lt "sales") as [->|];
  [|destruct (String.eqb_spec lt "marketing") as [->|];
  [|destruct (String.eqb_spec lt "growth") as [->|]]]]]];
  destruct sd, rc, h; cbn; split; intros; intuition congruence.
Qed.

(** X27: resolve_ambiguous_term ignores case: lower-casing the term and the
    context text never changes its answer. *)
Theorem resolve_ambiguous_term_case_insensitive (term text : string) (sd : Semantic.side) :
  Semantic.resolve_ambiguous_term term {| Semantic.ctx_side := sd; Semantic.ctx_text := text |}
  = Semantic.resolve_ambiguous_term (lower term)
      {| Semantic.ctx_side := sd; Semantic.ctx_text := lower text |}.
Proof.
  unfold Semantic.resolve_ambiguous_term. cbn [Semantic.ctx_side Semantic.ctx_text].
  by rewrite !TextFacts.lower_idem.
Qed.


(** X28: get_semantic_score gives overlap count 0 and bonus 0 when the
    demand text or the supply text is empty. *)
Theorem get_semantic_score_empty_text (demand_text supply_text : string) :
  demand_text = EmptyString \/ supply_text = EmptyString ->
  Semantic.bonus (Semantic.get_semantic_score demand_text supply_text) = 0%Z
  /\ Semantic.s_overlapCount (Semantic.get_semantic_score demand_text supply_text) = 0%nat.
Proof.
  intros H. unfold Semantic.get_semantic_score. cbn [Semantic.bonus Semantic.s_overlapCount].
  rewrite OverlapFacts.overlap_count_empty; [split; reflexivity|].
  destruct H as [->| ->]; [left|right]; apply OverlapFacts.expanded_empty_text.
Qed.

Module ExpansionFacts.
Import Semantic.

Import SemanticFacts.

Lemma fold_inv {A} (f : state -> A -> state) (I : state -> Prop) l st :
  (forall st x, In x l -> I st -> I (f st x)) -> I st -> I (fold_left f l st).
Proof.
  revert st. induction l as [|x l IH]; intros st Hf Hst; cbn; [exact Hst|].
  apply IH; [intros; apply Hf; [by right|done]|]. apply Hf; [by left|exact Hst].
Qed.

Lemma dict_get_in {V} (d : list (string * V)) k v :
  dict_get d k = Some v -> In v (map snd d).
Proof.
  unfold dict_get. destruct (List.find _ d) as [[k' v']|] eqn:E; [|done].
  intros [= <-]. apply List.find_some in E as [E _].
  apply in_map_iff. exists (k', v'). auto.
Qed.

Lemma lookup_or_nil_in d k v :
  In v (list_lookup_or_nil d k) -> In v (concat (map snd d)).
Proof.
  unfold list_lookup_or_nil. destruct (dict_get d k) as [vs|] eqn:E; cbn; [|done].
  intros Hv. apply in_concat. exists vs. split; [exact (dict_get_in _ _ _ E)|exact Hv].
Qed.

Section Inv.
Variable I : state -> Prop.
Variable Q : string -> Prop.
Hypothesis add_inv : forall r st v, Q v -> I st -> I (add_with_reason r st (lower v)).

Lemma fold_add_inv r l st :
  (forall v, In v l -> Q v) -> I st ->
  I (fold_left (fun st e => add_with_reason r st (lower e)) l st).
Proof. intros Hl. apply fold_inv. intros st' x Hx. apply add_inv, Hl, Hx. Qed.

Lemma fold_add_if_new_inv r l st :
  (forall v, In v l -> Q v) -> I st ->
  I (fold_left (fun st e => add_if_new r st (lower e)) l st).
Proof.
  intros Hl. apply fold_inv. intros st' x Hx Hst. unfold add_if_new.
  case_decide; [exact Hst|]. apply add_inv; [apply Hl, Hx|exact Hst].
Qed.

Lemma expand_token_inv ctx m st token :
  (forall k vs v, dict_get m k = Some vs -> In v vs -> Q v) ->
  (ctx_side ctx = Demand -> forall v, In v (list_lookup_or_nil DEMAND_NEED_EXPANSIONS "hiring") -> Q v) ->
  (ctx_side ctx = Supply -> forall v, In v (list_lookup_or_nil SUPPLY_CAPABILITY_EXPANSIONS "recruiting") -> Q v) ->
  I st -> I (expand_token ctx m st token).
Proof.
  intros Hm Hd Hs Hst. unfold expand_token. cbv zeta.
  assert (H1 : exists st1, I st1 /\
    match dict_get m (lower token) with
    | Some exps => fold_left (fun st e => add_with_reason
                     (String.append "taxonomy:" (lower token)) st (lower e)) exps st
    | None => st end = st1).
  { destruct (dict_get m (lower token)) as [vs|] eqn:E; [|eauto].
    eexists; split; [|reflexivity]. apply fold_add_inv; [|exact Hst].
    intros v Hv. exact (Hm _ _ _ E Hv). }
  destruct H1 as (st1 & H1 & E1). rewrite ?E1.
  destruct (resolve_ambiguous_term (lower token) ctx) as [[]|]; [| |exact H1];
    destruct (ctx_side ctx) eqn:Es; try exact H1.
  - apply fold_add_inv; [|exact H1]. apply Hd; reflexivity.
  - apply fold_add_inv; [|exact H1]. apply Hs; reflexivity.
Qed.

Lemma expand_semantic_signals_inv tokens ctx :
  (forall k vs v, dict_get (expansion_map_for ctx) k = Some vs -> In v vs -> Q v) ->
  (ctx_side ctx = Demand -> forall v, In v (list_lookup_or_nil DEMAND_NEED_EXPANSIONS "hiring") -> Q v) ->
  (ctx_side ctx = Supply -> forall v, In v (list_lookup_or_nil SUPPLY_CAPABILITY_EXPANSIONS "recruiting") -> Q v) ->
  I (list_to_set (map lower tokens), ∅) ->
  I (expanded (expand_semantic_signals tokens ctx), reasons (expand_semantic_signals tokens ctx)).
Proof.
  intros Hm Hd Hs H0. unfold expand_semantic_signals.
  cbv [negb SEMANTIC_MATCHING_ENABLED]; cbn zeta beta iota.
  cbn [expanded reasons].
  assert (Ht : I (token_loop tokens ctx (list_to_set (map lower tokens)))).
  { unfold token_loop. apply fold_inv; [|exact H0]. intros st x _ Hst.
    by apply expand_token_inv. }
  destruct (ctx_side ctx) eqn:Es; cbn [is_supply is_demand andb];
    repeat match goal with |- context [if ?b then _ else _] => destruct b end;
    rewrite <- surjective_pairing;
    try exact Ht; apply fold_add_if_new_inv; try exact Ht; auto.
Qed.

End Inv.

Definition justified (base0 : gset string) (st : state) : Prop :=
  ExpansionInvariant.reasons_ok st
  /\ forall e, e ∈ st.1 -> e ∈ base0 \/ is_Some (st.2 !! e).

Lemma add_with_reason_justified base0 r st e :
  justified base0 st -> justified base0 (add_with_reason r st e).
Proof.
  destruct st as [ex rs]. intros [Hr Hj]. unfold add_with_reason. split.
  - intros e' rs'. cbn. destruct (decide (e' = e)) as [->|Hne].
    + rewrite lookup_insert_eq. intros [= <-]. split; [set_solver|].
      intros Hnil. apply app_eq_nil in Hnil as [_ Hnil]. discriminate.
    + rewrite lookup_insert_ne by congruence. intros Hl.
      destruct (Hr e' rs' Hl) as [He Hne']. split; [cbn in He; set_solver|exact Hne'].
  - intros e' He'. cbn in *. destruct (decide (e' = e)) as [->|Hne].
    + right. rewrite lookup_insert_eq. eauto.
    + rewrite lookup_insert_ne by congruence. apply Hj. set_solver.
Qed.

Definition in_vocab (base0 : gset string) (V : list string) (st : state) : Prop :=
  forall e, e ∈ st.1 -> e ∈ base0 \/ exists v, In v V /\ e = lower v.

Lemma add_with_reason_in_vocab base0 V r st v :
  In v V -> in_vocab base0 V st -> in_vocab base0 V (add_with_reason r st (lower v)).
Proof.
  destruct st as [ex rs]. intros Hv Hst e He. cbn in He.
  apply elem_of_union in He as [He|He].
  - apply elem_of_singleton in He as ->. right. eauto.
  - exact (Hst e He).
Qed.

End ExpansionFacts.

(** X29: In the result of expand_semantic_signals, every token with a
    reasons entry is in the expanded set with a non-empty list of reasons,
    and every expanded token is a base token or has a reasons entry. *)
Theorem expand_semantic_signals_reasons (tokens : list string) (ctx : Semantic.SemanticContext) :
  let r := Semantic.expand_semantic_signals tokens ctx in
  (forall e rs, Semantic.reasons r !! e = Some rs -> e ∈ Semantic.expanded r /\ rs <> [])
  /\ (forall e, e ∈ Semantic.expanded r -> e ∈ Semantic.base r \/ is_Some (Semantic.reasons r !! e)).
Proof.
  cbv zeta.
  assert (Hb : Semantic.base (Semantic.expand_semantic_signals tokens ctx)
               = list_to_set (map lower tokens)) by reflexivity.
  rewrite Hb.
  refine (ExpansionFacts.expand_semantic_signals_inv
            (ExpansionFacts.justified (list_to_set (map lower tokens))) (fun _ => True)
            _ tokens ctx _ _ _ _).
  - intros r st v _. apply ExpansionFacts.add_with_reason_justified.
  - done.
  - done.
  - done.
  - split.
    + intros e rs H. cbn in H. rewrite lookup_empty in H. discriminate.
    + intros e He. left. exact He.
Qed.

(** X30: expand_semantic_signals only adds terms of its side's taxonomy:
    every expanded token is a base token or the lower-case form of a term
    listed in the expansion map of the context's side. *)
Theorem expand_semantic_signals_vocabulary (tokens : list string) (ctx : Semantic.SemanticContext)
    (e : string) :
  e ∈ Semantic.expanded (Semantic.expand_semantic_signals tokens ctx) ->
  e ∈ Semantic.base (Semantic.expand_semantic_signals tokens ctx)
  \/ exists v, In v (concat (map snd (Semantic.expansion_map_for ctx))) /\ e = lower v.
Proof.
  assert (Hb : Semantic.base (Semantic.expand_semantic_signals tokens ctx)
               = list_to_set (map lower tokens)) by reflexivity.
  rewrite Hb. revert e.
  refine (ExpansionFacts.expand_semantic_signals_inv
            (ExpansionFacts.in_vocab (list_to_set (map lower tokens))
               (concat (map snd (Semantic.expansion_map_for ctx))))
            (fun v => In v (concat (map snd (Semantic.expansion_map_for ctx))))
            _ tokens ctx _ _ _ _).
  - intros r st v Hv. apply ExpansionFacts.add_with_reason_in_vocab, Hv.
  - intros k vs v E Hv. apply in_concat. exists vs.
    split; [exact (ExpansionFacts.dict_get_in _ _ _ E)|exact Hv].
  - intros Es v Hv. unfold Semantic.expansion_map_for. rewrite Es.
    exact (ExpansionFacts.lookup_or_nil_in _ _ _ Hv).
  - intros Es v Hv. unfold Semantic.expansion_map_for. rewrite Es.
    exact (ExpansionFacts.lookup_or_nil_in _ _ _ Hv).
  - intros e He. left. exact He.
Qed.


(* ================================================================== *)
(** * Witnesses *)

(** Witness of determine_tier_monotone at a concrete input. *)
Lemma determine_tier_monotone_witness :
  (40 <= 80)%Z
  /\ (Orders.tier_rank (Matcher.determine_tier 40 (Matcher.mkNeed "engineering" [] 90 "job_signal")
                          (Matcher.mkCap "recruiting" [] 95 "description") None).1
      <= Orders.tier_rank (Matcher.determine_tier 80 (Matcher.mkNeed "engineering" [] 90 "job_signal")
                             (Matcher.mkCap "recruiting" [] 95 "description") None).1)%nat.
Proof.
  split; [lia|].
  apply (proj1 (determine_tier_monotone 40 80 (Matcher.mkNeed "engineering" [] 90 "job_signal")
                  (Matcher.mkCap "recruiting" [] 95 "description") None ltac:(lia))).
Defined.

(** Witness of match_records_matches_from_inputs at a concrete input. *)
Lemma match_records_matches_from_inputs_witness :
  match Matcher.match_records [Examples.hiring_demand]
          [Examples.recruiting_supply; Examples.staffing_supply] 0 false with
  | Some r => match Matcher.demand_matches r with
              | m :: _ => In (m_demand m) [Examples.hiring_demand]
                          /\ In (m_supply m) [Examples.recruiting_supply; Examples.staffing_supply]
              | [] => False
              end
  | None => False
  end.
Proof.
  pose proof (match_records_matches_from_inputs [Examples.hiring_demand]
                [Examples.recruiting_supply; Examples.staffing_supply] 0 false) as T.
  destruct (Matcher.match_records [Examples.hiring_demand]
              [Examples.recruiting_supply; Examples.staffing_supply] 0 false) as [r|] eqn:E;
    [|vm_compute in E; discriminate E].
  specialize (T r eq_refl).
  destruct (Matcher.demand_matches r) as [|m l] eqn:E2.
  - vm_compute in E. injection E as <-. vm_compute in E2. discriminate E2.
  - destruct (T m (or_introl (or_introl eq_refl))) as (H1 & H2 & _). split; [exact H1|exact H2].
Defined.

(** Witness of match_records_aggregates_partition at a concrete input. *)
Lemma match_records_aggregates_partition_witness :
  match Matcher.match_records [Examples.hiring_demand]
          [Examples.recruiting_supply; Examples.staffing_supply] 0 false with
  | Some r => Permutation (concat (map Matcher.agg_matches (Matcher.supply_aggregates r)))
                (Matcher.demand_matches r)
              /\ length (Matcher.supply_aggregates r) = 2
  | None => False
  end.
Proof.
  pose proof (match_records_aggregates_partition [Examples.hiring_demand]
                [Examples.recruiting_supply; Examples.staffing_supply] 0 false) as T.
  destruct (Matcher.match_records [Examples.hiring_demand]
              [Examples.recruiting_supply; Examples.staffing_supply] 0 false) as [r|] eqn:E;
    [|vm_compute in E; discriminate E].
  split; [exact (proj1 (T r eq_refl))|].
  vm_compute in E. injection E as <-. reflexivity.
Defined.

(** Witness of match_records_aggregate_shape at a concrete input. *)
Lemma match_records_aggregate_shape_witness :
  match Matcher.match_records [Examples.hiring_demand; Examples.blank]
          [Examples.recruiting_supply] 0 false with
  | Some r => match Matcher.supply_aggregates r with
              | a :: _ =>
                  length (Matcher.agg_matches a) = 2%nat
                  /\ Sorted (fun x y => (score y <= score x)%Z) (Matcher.agg_matches a)
                  /\ (forall m, In m (Matcher.agg_matches a) ->
                        Matcher.get_supply_key (m_supply m)
                        = Matcher.get_supply_key (Matcher.agg_supply a)
                        /\ (score m <= score (Matcher.best_match a))%Z)
              | [] => False
              end
  | None => False
  end.
Proof.
  pose proof (match_records_aggregate_shape [Examples.hiring_demand; Examples.blank]
                [Examples.recruiting_supply] 0 false) as T.
  destruct (Matcher.match_records [Examples.hiring_demand; Examples.blank]
              [Examples.recruiting_supply] 0 false) as [r|] eqn:E;
    [|vm_compute in E; discriminate E].
  specialize (T r).
  destruct (Matcher.supply_aggregates r) as [|a l] eqn:E2.
  - vm_compute in E. injection E as <-. vm_compute in E2. discriminate E2.
  - destruct (T a eq_refl (or_introl eq_refl)) as (_ & _ & Hall & Hs & _).
    split; [|exact (conj Hs Hall)].
    vm_compute in E. injection E as <-. vm_compute in E2. injection E2 as <- _.
    reflexivity.
Defined.

(** Witness of match_records_stats_counts at a concrete input. *)
Lemma match_records_stats_counts_witness :
  match Matcher.match_records [Examples.hiring_demand]
          [Examples.recruiting_supply; Examples.staffing_supply] 0 true with
  | Some r => Matcher.unique_demands_matched (Matcher.stats r)
              = Matcher.st_total_matches (Matcher.stats r)
  | None => False
  end.
Proof.
  pose proof (match_records_stats_counts [Examples.hiring_demand]
                [Examples.recruiting_supply; Examples.staffing_supply] 0 true) as T.
  destruct (Matcher.match_records [Examples.hiring_demand]
              [Examples.recruiting_supply; Examples.staffing_supply] 0 true) as [r|] eqn:E;
    [|vm_compute in E; discriminate E].
  exact (proj2 (proj2 (proj2 (proj2 (T r eq_refl)))) eq_refl).
Defined.

(** Witness of match_records_avg_score_range at a concrete input. *)
Lemma match_records_avg_score_range_witness :
  match Matcher.match_records [Examples.hiring_demand]
          [Examples.recruiting_supply; Examples.staffing_supply] 0 true with
  | Some r => (6 <= Matcher.avg_score (Matcher.stats r) <= 100)%Z
  | None => False
  end.
Proof.
  pose proof (match_records_avg_score_range [Examples.hiring_demand]
                [Examples.recruiting_supply; Examples.staffing_supply] 0 true) as T.
  destruct (Matcher.match_records [Examples.hiring_demand]
              [Examples.recruiting_supply; Examples.staffing_supply] 0 true) as [r|] eqn:E;
    [|vm_compute in E; discriminate E].
  destruct (Matcher.scored_pairs [Examples.hiring_demand]
              [Examples.recruiting_supply; Examples.staffing_supply] 0) as [ps|] eqn:E2;
    [|vm_compute in E2; discriminate E2].
  assert (Hne : ps <> []) by (intros ->; vm_compute in E2; discriminate E2).
  exact (T r ps eq_refl eq_refl Hne).
Defined.

(** Witness of match_records_best_sublist at a concrete input. *)
Lemma match_records_best_sublist_witness :
  match Matcher.match_records [Examples.hiring_demand]
          [Examples.recruiting_supply; Examples.staffing_supply] 0 true,
        Matcher.match_records [Examples.hiring_demand]
          [Examples.recruiting_supply; Examples.staffing_supply] 0 false with
  | Some r1, Some r2 => sublist (Matcher.demand_matches r1) (Matcher.demand_matches r2)
  | _, _ => False
  end.
Proof.
  pose proof (match_records_best_sublist [Examples.hiring_demand]
                [Examples.recruiting_supply; Examples.staffing_supply] 0) as T.
  destruct (Matcher.match_records [Examples.hiring_demand]
              [Examples.recruiting_supply; Examples.staffing_supply] 0 true) as [r1|] eqn:E1;
    [|vm_compute in E1; discriminate E1].
  destruct (Matcher.match_records [Examples.hiring_demand]
              [Examples.recruiting_supply; Examples.staffing_supply] 0 false) as [r2|] eqn:E2;
    [|vm_compute in E2; discriminate E2].
  exact (T r1 r2 eq_refl eq_refl).
Defined.

(** Witness of match_records_all_pairs_kept at a concrete input. *)
Lemma match_records_all_pairs_kept_witness :
  match Matcher.match_records [Examples.hiring_demand]
          [Examples.recruiting_supply; Examples.staffing_supply] 0 false with
  | Some r => length (Matcher.demand_matches r) = 2%nat
  | None => False
  end.
Proof.
  pose proof (match_records_all_pairs_kept [Examples.hiring_demand]
                [Examples.recruiting_supply; Examples.staffing_supply] 0) as T.
  destruct (Matcher.match_records [Examples.hiring_demand]
              [Examples.recruiting_supply; Examples.staffing_supply] 0 false) as [r|] eqn:E;
    [|vm_compute in E; discriminate E].
  exact (T r eq_refl ltac:(lia)).
Defined.

(** Witness of filter_by_score_aggregates at a concrete input. *)
Lemma filter_by_score_aggregates_witness :
  match Matcher.match_records [Examples.hiring_demand; Examples.hiring_demand; Examples.blank]
          [Examples.recruiting_supply] 0 false with
  | Some r => match Matcher.supply_aggregates r,
                    Matcher.supply_aggregates (MatcherFilter.filter_by_score company r 50) with
              | a0 :: _, a :: _ =>
                  Matcher.total_matches a = Z.of_nat (length (Matcher.agg_matches a))
                  /\ length (Matcher.agg_matches a0) = 3%nat
                  /\ Matcher.total_matches a0 = 2%Z
                  /\ length (Matcher.agg_matches a) = 2%nat
                  /\ stdpp.base.size
                       (list_to_set (map Matcher.match_key (Matcher.agg_matches a)) : gset string)
                     = 1%nat
              | _, _ => False
              end
  | None => False
  end.
Proof.
  pose proof (filter_by_score_aggregates company) as T.
  destruct (Matcher.match_records [Examples.hiring_demand; Examples.hiring_demand; Examples.blank]
              [Examples.recruiting_supply] 0 false) as [r|] eqn:E;
    [|vm_compute in E; discriminate E].
  specialize (T r 50%Z).
  destruct (Matcher.supply_aggregates (MatcherFilter.filter_by_score company r 50)) as [|a l] eqn:E2.
  - vm_compute in E. injection E as <-. vm_compute in E2. discriminate E2.
  - destruct (T a (or_introl eq_refl)) as (_ & _ & _ & _ & _ & H).
    vm_compute in E. injection E as <-. vm_compute in E2. injection E2 as <- _.
    split; [exact H|]. vm_compute. repeat split; reflexivity.
Defined.

(** Witness of filter_by_score_noop_threshold at a concrete input. *)
Lemma filter_by_score_noop_threshold_witness :
  match Matcher.match_records [Examples.hiring_demand]
          [Examples.recruiting_supply; Examples.staffing_supply] 0 true with
  | Some r => Matcher.demand_matches (MatcherFilter.filter_by_score company r 0)
              = Matcher.demand_matches r
  | None => False
  end.
Proof.
  pose proof (filter_by_score_noop_threshold company [Examples.hiring_demand]
                [Examples.recruiting_supply; Examples.staffing_supply] 0 true) as T.
  destruct (Matcher.match_records [Examples.hiring_demand]
              [Examples.recruiting_supply; Examples.staffing_supply] 0 true) as [r|] eqn:E;
    [|vm_compute in E; discriminate E].
  exact (proj1 (T r 0%Z eq_refl ltac:(lia))).
Defined.

(** Witness of extract_tokens_shape at a concrete input. *)
Lemma extract_tokens_shape_witness :
  In "hiring" (Semantic.extract_tokens "We are Hiring!") /\ (3 <= String.length "hiring")%nat.
Proof.
  assert (H : In "hiring" (Semantic.extract_tokens "We are Hiring!"))
    by (vm_compute; right; left; reflexivity).
  split; [exact H|exact (proj1 (extract_tokens_shape _ _ H))].
Defined.

(** Witness of calculate_semantic_bonus_monotone at a concrete input. *)
Lemma calculate_semantic_bonus_monotone_witness :
  (2 <= 4)%nat
  /\ (Semantic.calculate_semantic_bonus 2 <= Semantic.calculate_semantic_bonus 4)%Z.
Proof. split; [lia|]. exact (proj1 (calculate_semantic_bonus_monotone 2 4 ltac:(lia))). Defined.

(** Witness of get_semantic_score_empty_text at a concrete input. *)
Lemma get_semantic_score_empty_text_witness :
  Semantic.bonus (Semantic.get_semantic_score EmptyString "Staffing agency") = 0%Z.
Proof.
  exact (proj1 (get_semantic_score_empty_text EmptyString "Staffing agency" (or_introl eq_refl))).
Defined.

(** Witness of expand_semantic_signals_vocabulary at a concrete input. *)
Lemma expand_semantic_signals_vocabulary_witness :
  let r := Semantic.expand_semantic_signals ["staffing"; "agency"]
             {| Semantic.ctx_side := Semantic.Supply; Semantic.ctx_text := "Staffing agency" |} in
  "hiring" ∈ Semantic.expanded r
  /\ ("hiring" ∈ Semantic.base r
      \/ exists v, In v (concat (map snd Semantic.SUPPLY_CAPABILITY_EXPANSIONS))
                   /\ "hiring" = lower v).
Proof.
  cbv zeta.
  assert (H : "hiring" ∈ Semantic.expanded (Semantic.expand_semantic_signals ["staffing"; "agency"]
             {| Semantic.ctx_side := Semantic.Supply; Semantic.ctx_text := "Staffing agency" |}))
    by (apply (bool_decide_eq_true _); vm_compute; reflexivity).
  split; [exact H|exact (expand_semantic_signals_vocabulary _ _ _ H)].
Defined.

(** Witness of extract_capability_profile_range at a concrete input. *)
Lemma extract_capability_profile_range_witness :
  match Matcher.extract_capability_from_supply Examples.recruiting_supply with
  | Some cap => In (c_category cap) (map fst Matcher.cap_labels)
  | None => False
  end.
Proof.
  pose proof (extract_capability_profile_range Examples.recruiting_supply) as T.
  destruct (Matcher.extract_capability_from_supply Examples.recruiting_supply) as [cap|] eqn:E;
    [|vm_compute in E; discriminate E].
  exact (proj1 (T cap eq_refl)).
Defined.
